(** * Memocare: reminder scheduling, object-signature matching, notification sound

    A shallow embedding of four pieces of the application:

    - the next-run arithmetic of reminders, which exists twice in the
      sources: in the submit handler of the Reminders page
      ([handleSubmit]) and in the server-side scheduler
      ([calculateNextRun]);
    - the scheduler's once-a-minute pass over the [reminders] table
      (the select of due rows and the two updates);
    - the object-signature similarity and matching of the object
      detection library ([createObjectSignature], [calculateSimilarity],
      [findMatches]) and what the Identify page shows of a match;
    - the WAV encoder of the notification sound ([encodeWAV]).

    Both next-run computations are written against the JavaScript [Date]
    object, so the file starts with the date algorithms of the ECMAScript
    specification that the methods used by the sources are defined by. *)

From Stdlib Require Import ZArith QArith Qround List String DecimalString Bool Lia.
From Stdlib Require Import Permutation Sorted Lqa.
Import ListNotations.

Local Open Scope Z_scope.

(* ================================================================== *)
(** * Part I: definitions                                              *)
(* ================================================================== *)

(** ** ECMAScript time values

    A [Date] holds a time value: milliseconds since 1970-01-01T00:00 UTC.
    Time values are modelled as unbounded integers.  The limit of
    8.64e15 ms beyond which a [Date] becomes invalid is not modelled: no
    clock reading comes near it, and the computed next runs are at most
    eight days after the reference time ([calculateNextRun_within_8_days]).
    All quotients and remainders of the specification are floored, as
    [Z.div] and [Z.modulo] are for a positive divisor. *)

Definition HoursPerDay : Z := 24.
Definition MinutesPerHour : Z := 60.
Definition SecondsPerMinute : Z := 60.
Definition msPerSecond : Z := 1000.
Definition msPerMinute : Z := 60000.
Definition msPerHour : Z := 3600000.
Definition msPerDay : Z := 86400000.

Definition Day (t : Z) : Z := t / msPerDay.
Definition TimeWithinDay (t : Z) : Z := t mod msPerDay.

Definition isLeapYear (y : Z) : bool :=
  if negb (y mod 4 =? 0) then false
  else if negb (y mod 100 =? 0) then true
  else if negb (y mod 400 =? 0) then false
  else true.

Definition DaysInYear (y : Z) : Z := if isLeapYear y then 366 else 365.

Definition DayFromYear (y : Z) : Z :=
  365 * (y - 1970) + (y - 1969) / 4 - (y - 1901) / 100 + (y - 1601) / 400.

Definition TimeFromYear (y : Z) : Z := msPerDay * DayFromYear y.

(** The specification defines [YearFromTime t] as the largest [y] with
    [TimeFromYear y <= t].  It is computed here by splitting the day
    number, counted from 1601-01-01, into 400-year, 100-year, 4-year and
    1-year periods; [YearFromTime_spec] and [YearFromTime_largest] below
    show that this is the year the specification asks for. *)
Definition YearFromDay (d : Z) : Z :=
  let n := d + 134774 in
  let q400 := n / 146097 in
  let r400 := n mod 146097 in
  let q100 := Z.min (r400 / 36524) 3 in
  let r100 := r400 - 36524 * q100 in
  let q4 := r100 / 1461 in
  let r4 := r100 mod 1461 in
  let q1 := Z.min (r4 / 365) 3 in
  1601 + 400 * q400 + 100 * q100 + 4 * q4 + q1.

Definition YearFromTime (t : Z) : Z := YearFromDay (Day t).

Definition InLeapYear (t : Z) : Z :=
  if DaysInYear (YearFromTime t) =? 366 then 1 else 0.

Definition DayWithinYear (t : Z) : Z := Day t - DayFromYear (YearFromTime t).

Definition MonthFromTime (t : Z) : Z :=
  let d := DayWithinYear t in
  let leap := InLeapYear t in
  if d <? 31 then 0
  else if d <? 59 + leap then 1
  else if d <? 90 + leap then 2
  else if d <? 120 + leap then 3
  else if d <? 151 + leap then 4
  else if d <? 181 + leap then 5
  else if d <? 212 + leap then 6
  else if d <? 243 + leap then 7
  else if d <? 273 + leap then 8
  else if d <? 304 + leap then 9
  else if d <? 334 + leap then 10
  else 11.

Definition DateFromTime (t : Z) : Z :=
  let d := DayWithinYear t in
  let leap := InLeapYear t in
  match MonthFromTime t with
  | 0 => d + 1
  | 1 => d - 30
  | 2 => d - 58 - leap
  | 3 => d - 89 - leap
  | 4 => d - 119 - leap
  | 5 => d - 150 - leap
  | 6 => d - 180 - leap
  | 7 => d - 211 - leap
  | 8 => d - 242 - leap
  | 9 => d - 272 - leap
  | 10 => d - 303 - leap
  | _ => d - 333 - leap
  end.

Definition WeekDay (t : Z) : Z := (Day t + 4) mod 7.

Definition HourFromTime (t : Z) : Z := (t / msPerHour) mod HoursPerDay.
Definition MinFromTime (t : Z) : Z := (t / msPerMinute) mod MinutesPerHour.
Definition SecFromTime (t : Z) : Z := (t / msPerSecond) mod SecondsPerMinute.
Definition msFromTime (t : Z) : Z := t mod msPerSecond.

Definition MakeTime (hour min sec ms : Z) : Z :=
  hour * msPerHour + min * msPerMinute + sec * msPerSecond + ms.

(** Number of days from the first day of a year to the first day of its
    month [mn] (0 = January). *)
Definition DayWithinYearOfMonth (mn : Z) (leap : Z) : Z :=
  match mn with
  | 0 => 0
  | 1 => 31
  | 2 => 59 + leap
  | 3 => 90 + leap
  | 4 => 120 + leap
  | 5 => 151 + leap
  | 6 => 181 + leap
  | 7 => 212 + leap
  | 8 => 243 + leap
  | 9 => 273 + leap
  | 10 => 304 + leap
  | _ => 334 + leap
  end.

(** [MakeDay]: the specification asks for a time value [t] on the first
    day of month [mn] of year [ym] and returns [Day t + date - 1]; the
    day number of that first day is computed directly
    ([MakeDay_first_of_month] checks it against the three selectors). *)
Definition MakeDay (year month date : Z) : Z :=
  let ym := year + month / 12 in
  let mn := month mod 12 in
  let leap := if DaysInYear ym =? 366 then 1 else 0 in
  DayFromYear ym + DayWithinYearOfMonth mn leap + date - 1.

Definition MakeDate (day time : Z) : Z := day * msPerDay + time.

(** ** A local time zone of constant offset

    [LocalTime] and [UTC] shift by the offset of the local zone.  In
    this first transcription the offset is a constant of the host.  It
    is the reference the statements about the local calendar are made
    against; a host whose zone changes its offset (daylight saving) is
    transcribed in the module [Host] below, and the two transcriptions
    give the same results wherever no transition of the zone is near
    ([calculateNextRun_steady]). *)
Class LocalZone := { LocalTZA : Z }.

Section DateMethods.
Context `{LocalZone}.

Definition LocalTime (t : Z) : Z := t + LocalTZA.
Definition UTC (t : Z) : Z := t - LocalTZA.

(** [Date.prototype.getHours], [getDate], [getDay] *)
Definition getHours (t : Z) : Z := HourFromTime (LocalTime t).
Definition getDate (t : Z) : Z := DateFromTime (LocalTime t).
Definition getDay (t : Z) : Z := WeekDay (LocalTime t).

(** [Date.prototype.setHours(hour, min, sec, ms)]: the new time value
    of the receiver. *)
Definition setHours (t : Z) (hour min sec ms : Z) : Z :=
  let lt := LocalTime t in
  UTC (MakeDate (Day lt) (MakeTime hour min sec ms)).

(** [Date.prototype.setDate(date)] *)
Definition setDate (t : Z) (date : Z) : Z :=
  let lt := LocalTime t in
  UTC (MakeDate (MakeDay (YearFromTime lt) (MonthFromTime lt) date)
                (TimeWithinDay lt)).

(** [new Date(year, month, date, hours, minutes, seconds, ms)] for a
    full year number: the time value of a local date and time given by
    its fields. *)
Definition newDate (year month date hours minutes seconds ms : Z) : Z :=
  UTC (MakeDate (MakeDay year month date)
                (MakeTime hours minutes seconds ms)).
End DateMethods.

(** Two zones for the worked examples: UTC and India Standard Time
    (UTC+05:30). *)
Definition UTCZone : LocalZone := {| LocalTZA := 0 |}.
Definition ISTZone : LocalZone := {| LocalTZA := 19800000 |}.

(** The zone whose offset is [c] throughout. *)
Definition constantZone (c : Z) : LocalZone := {| LocalTZA := c |}.


(** ** The Reminders page: [handleSubmit]

    The form state is the four strings [title], [type], [schedule] and
    [customDateTime]; [now] is the reading of the clock ([new Date()]),
    which every path through the handler takes once.  A [Date] object
    that the code mutates is threaded as the successive values of
    [nextRun]; JavaScript's [%] is the truncating remainder [Z.rem]. *)
Module Reminders.

(** The object handed to [createMutation.mutate].  [next_run_at] is
    sent as [nextRun.toISOString()]; it is kept here as the time value
    that string denotes. *)
Record payload := {
  title : string;
  type : string;
  schedule_cron : string;
  next_run_at : Z;
  active : bool
}.

Inductive outcome :=
| Ignored                      (* plain [return] *)
| Toast (message : string)     (* destructive toast, then [return] *)
| Mutate (p : payload)         (* [createMutation.mutate] is called *)
| RangeError.                  (* [toISOString] of an invalid date *)

Section Handler.
Context `{LocalZone}.

(** [new Date(customDateTime)]: parsing of the date-time string is
    the host's; [None] stands for an invalid date. *)
Variable DateParse : string -> option Z.

(** The [else] branch of the handler (the schedule is not
    ['custom']): the pair of [nextRun] and [scheduleCron]. *)
Definition recurringSchedule (schedule : string) (now : Z) : Z * string :=
  if (schedule =? "hourly")%string then
    let nextRun := now in
    let nextRun := setHours nextRun (getHours nextRun + 1) 0 0 0 in
    (nextRun, "0 * * * *"%string)
  else if (schedule =? "daily")%string then
    let nextRun := now in
    let nextRun := setHours nextRun 9 0 0 0 in
    let nextRun :=
      if nextRun <=? now then setDate nextRun (getDate nextRun + 1)
      else nextRun in
    (nextRun, "0 9 * * *"%string)
  else if (schedule =? "weekly")%string then
    let nextRun := now in
    let nextRun := setHours nextRun 9 0 0 0 in
    let dayOfWeek := getDay nextRun in
    let daysUntilMonday :=
      if dayOfWeek =? 0 then 1 else Z.rem (8 - dayOfWeek) 7 in
    let nextRun :=
      if (dayOfWeek =? 1) && (nextRun <=? now)
      then setDate nextRun (getDate nextRun + 7)
      else if negb (dayOfWeek =? 1)
           then setDate nextRun (getDate nextRun + daysUntilMonday)
           else nextRun in
    (nextRun, "0 9 * * 1"%string)
  else
    let nextRun := now in
    let nextRun := setDate nextRun (getDate nextRun + 1) in
    (nextRun, "0 9 * * *"%string).

Definition isEmpty (s : string) : bool := (s =? "")%string.

Definition handleSubmit (title type schedule customDateTime : string)
           (now : Z) : outcome :=
  if isEmpty title || isEmpty type || isEmpty schedule then Ignored
  else if (schedule =? "custom")%string then
    if isEmpty customDateTime
    then Toast "Please select a custom date and time"
    else
      match DateParse customDateTime with
      | Some nextRun =>
          if nextRun <=? now
          then Toast "Custom time must be in the future"
          else Mutate {| title := title; type := type;
                         schedule_cron := "once";
                         next_run_at := nextRun; active := true |}
      | None => RangeError
      end
  else
    let '(nextRun, scheduleCron) := recurringSchedule schedule now in
    Mutate {| title := title; type := type;
              schedule_cron := scheduleCron;
              next_run_at := nextRun; active := true |}.
End Handler.

End Reminders.

(** ** The server-side scheduler *)
Module Scheduler.

(** Modelled from the spec: the [reminders] table declaration
    ([@shared/schema]) is not among the sources.  A row carries the
    fields of the specification's ScheduledItem under the column names
    the scheduler reads and writes; timestamps are time values. *)
Record reminder := {
  id : Z;
  user_id : Z;
  title : string;
  type : string;
  schedule_cron : string;
  next_run_at : Z;
  active : bool
}.

Definition set_active (b : bool) (r : reminder) : reminder :=
  {| id := id r; user_id := user_id r; title := title r; type := type r;
     schedule_cron := schedule_cron r; next_run_at := next_run_at r;
     active := b |}.

Definition set_next_run_at (t : Z) (r : reminder) : reminder :=
  {| id := id r; user_id := user_id r; title := title r; type := type r;
     schedule_cron := schedule_cron r; next_run_at := t;
     active := active r |}.

(** The payload of a ['reminder:due'] event and the room it goes to. *)
Record due_event := {
  room : Z;             (* [user_${user_id}] *)
  ev_id : Z;
  ev_title : string;
  ev_type : string
}.

(** The world the scheduler acts on: the table and the events emitted
    so far, oldest first. *)
Record world := { table : list reminder; emitted : list due_event }.

(** A small state monad over the world. *)
Definition M (A : Type) : Type := world -> A * world.
Definition ret {A} (a : A) : M A := fun w => (a, w).
Definition bind {A B} (m : M A) (k : A -> M B) : M B :=
  fun w => let '(a, w') := m w in k a w'.
Definition run {A} (m : M A) (w : world) : world := snd (m w).
Definition result {A} (m : M A) (w : world) : A := fst (m w).

Declare Scope sched_scope.
Delimit Scope sched_scope with sched.
Notation "x <- m ;; k" := (bind m (fun x => k))
  (at level 61, m at next level, right associativity) : sched_scope.
Notation "m ;;; k" := (bind m (fun _ => k))
  (at level 61, right associativity) : sched_scope.

(** [db.select().from(reminders).where(p)] *)
Definition select_where (p : reminder -> bool) : M (list reminder) :=
  fun w => (filter p (table w), w).

(** [db.update(reminders).set(f).where(p)] *)
Definition update_where (f : reminder -> reminder) (p : reminder -> bool)
  : M unit :=
  fun w => (tt, {| table := map (fun r => if p r then f r else r) (table w);
                   emitted := emitted w |}).

(** [io.to(room).emit('reminder:due', ...)] *)
Definition emit (e : due_event) : M unit :=
  fun w => (tt, {| table := table w; emitted := (emitted w ++ [e])%list |}).

(** [for (const x of xs) body] *)
Fixpoint for_of {A} (xs : list A) (body : A -> M unit) : M unit :=
  match xs with
  | [] => ret tt
  | x :: xs' => bind (body x) (fun _ => for_of xs' body)
  end.

Section Scheduler.
Context `{LocalZone}.

Definition calculateNextRun (scheduleCron : string) (currentTime : Z) : Z :=
  let nextRun := currentTime in
  if (scheduleCron =? "0 * * * *")%string then
    setHours nextRun (getHours nextRun + 1) 0 0 0
  else if (scheduleCron =? "0 9 * * *")%string then
    let nextRun := setHours nextRun 9 0 0 0 in
    if nextRun <=? currentTime
    then setDate nextRun (getDate nextRun + 1)
    else nextRun
  else if (scheduleCron =? "0 9 * * 1")%string then
    let nextRun := setHours nextRun 9 0 0 0 in
    let dayOfWeek := getDay nextRun in
    let daysUntilMonday :=
      if dayOfWeek =? 0 then 1 else Z.rem (8 - dayOfWeek) 7 in
    if (dayOfWeek =? 1) && (nextRun <=? currentTime)
    then setDate nextRun (getDate nextRun + 7)
    else if negb (dayOfWeek =? 1)
         then setDate nextRun (getDate nextRun + daysUntilMonday)
         else nextRun
  else
    setDate nextRun (getDate nextRun + 1).

(** The query for due reminders:
    [where(and(eq(active, true), lte(next_run_at, now)))]. *)
Definition isDue (now : Z) (r : reminder) : bool :=
  Bool.eqb (active r) true && (next_run_at r <=? now).

Definition selectDue (now : Z) : M (list reminder) :=
  select_where (isDue now).

(** [set({ active: false }).where(eq(id, k))] *)
Definition deactivate (k : Z) : M unit :=
  update_where (set_active false) (fun r => id r =? k).

(** [set({ next_run_at: nextRun }).where(eq(id, k))] *)
Definition reschedule (k : Z) (nextRun : Z) : M unit :=
  update_where (set_next_run_at nextRun) (fun r => id r =? k).

(** The event emitted for a due reminder, to the room of its user. *)
Definition event_of (r : reminder) : due_event :=
  {| room := user_id r; ev_id := id r;
     ev_title := title r; ev_type := type r |}.

(** The body of the loop over the due reminders. *)
Definition fire (now : Z) (r : reminder) : M unit :=
  (emit (event_of r) ;;;
   if (schedule_cron r =? "once")%string
      || (schedule_cron r =? "custom")%string
   then deactivate (id r)
   else
     let nextRun := calculateNextRun (schedule_cron r) now in
     reschedule (id r) nextRun)%sched.

(** One run of the every-minute job at clock reading [now]. *)
Definition tick (now : Z) : M unit :=
  (dueReminders <- selectDue now ;;
   for_of dueReminders (fire now))%sched.

(** The specification's Due-Item Store interface, as the scheduler's
    queries realise it. *)
Definition listDue (asOf : Z) : M (list reminder) := selectDue asOf.

Definition markFired (k : Z) (newNextRunAt : option Z) : M unit :=
  match newNextRunAt with
  | Some t => reschedule k t
  | None => deactivate k
  end.

(** The outcome [fire] settles for a due reminder, as the argument of
    [markFired]: deactivation for a one-time reminder, the computed
    next run otherwise. *)
Definition outcome (now : Z) (r : reminder) : option Z :=
  if (schedule_cron r =? "once")%string
     || (schedule_cron r =? "custom")%string
  then None
  else Some (calculateNextRun (schedule_cron r) now).
End Scheduler.

(** An outcome is settled at [now] when the item cannot be due at
    [now] any more: it is deactivated, or its next run is past
    [now]. *)
Definition settles (now : Z) (o : option Z) : Prop :=
  match o with Some t => now < t | None => True end.

(** Lookup of a row by its identifier. *)
Definition lookup (k : Z) (tb : list reminder) : option reminder :=
  find (fun r => id r =? k) tb.

(** A row after the outcome [o] has been written to it. *)
Definition written (o : option Z) (x : reminder) : reminder :=
  match o with
  | Some t => set_next_run_at t x
  | None => set_active false x
  end.

(** What one pass at [now] makes of a row when identifiers are unique:
    a due row receives its own outcome, any other row stays. *)
Definition settled `{LocalZone} (now : Z) (x : reminder) : reminder :=
  if isDue now x then written (outcome now x) x else x.

End Scheduler.

(** ** The host as it is: zone transitions and a fallible database

    The same sources once more, against a host that is not idealised.

    - The local zone changes its offset.  [LocalTime t] adds the offset
      in force at the time value [t].  [UTC t] reads a local time with
      the offset the ECMAScript specification prescribes: a local time
      that occurs twice (the clock was set back) is read as its earlier
      occurrence, and a local time that does not occur (the clock was
      set forward) is read with the offset in force before the
      transition.
    - Every database call returns a promise that may be rejected.  The
      body of the every-minute job [await]s each call inside one
      [try]/[catch]: the first rejection ends the pass, and what the
      pass has done until then -- events emitted, rows updated -- stays
      done. *)
Module Host.

(** The zone of the host: [offsetAt t] is the offset in force at the
    time value [t]; [offsetFor t] is the offset with which the local
    time [t] is read. *)
Class Zone := { offsetAt : Z -> Z; offsetFor : Z -> Z }.

Section HostDate.
Context `{Zone}.

Definition LocalTime (t : Z) : Z := t + offsetAt t.
Definition UTC (t : Z) : Z := t - offsetFor t.

Definition getHours (t : Z) : Z := HourFromTime (LocalTime t).
Definition getDate (t : Z) : Z := DateFromTime (LocalTime t).
Definition getDay (t : Z) : Z := WeekDay (LocalTime t).

Definition setHours (t : Z) (hour min sec ms : Z) : Z :=
  let lt := LocalTime t in
  UTC (MakeDate (Day lt) (MakeTime hour min sec ms)).

Definition setDate (t : Z) (date : Z) : Z :=
  let lt := LocalTime t in
  UTC (MakeDate (MakeDay (YearFromTime lt) (MonthFromTime lt) date)
                (TimeWithinDay lt)).

Definition newDate (year month date hours minutes seconds ms : Z) : Z :=
  UTC (MakeDate (MakeDay year month date)
                (MakeTime hours minutes seconds ms)).

(** The zone is steady at offset [c] from [lo] to [hi]: at every time
    value of that span the offset in force is [c], and the local time
    the clock shows then is read with [c]. *)
Definition steady (c lo hi : Z) : Prop :=
  forall t, lo <= t <= hi -> offsetAt t = c /\ offsetFor (t + c) = c.
End HostDate.

(** A zone without transitions. *)
Definition fixedZone (c : Z) : Zone :=
  {| offsetAt := fun _ => c; offsetFor := fun _ => c |}.

(** A zone around one transition: the offset is [before] until the time
    value [instant] and [after] from then on.  When the clock is set
    back ([after < before]) the local times from [instant + after] to
    [instant + before] occur twice and are read as their first
    occurrence, with [before]; when it is set forward the local times
    from [instant + before] to [instant + after] do not occur and are
    read with [before] as well. *)
Definition transitionZone (instant before after : Z) : Zone :=
  {| offsetAt := fun t => if t <? instant then before else after;
     offsetFor := fun t =>
       if t <? instant + Z.max before after then before else after |}.

(** America/New_York around 2025-03-09T07:00Z, when 02:00 EST (UTC-5)
    becomes 03:00 EDT (UTC-4), and around 2025-11-02T06:00Z, when
    02:00 EDT becomes 01:00 EST. *)
Definition NewYorkMarch2025 : Zone :=
  transitionZone 1741503600000 (-18000000) (-14400000).
Definition NewYorkNovember2025 : Zone :=
  transitionZone 1762063200000 (-14400000) (-18000000).

(** Pacific/Chatham around 2025-04-05T14:00Z, when 03:45 (UTC+13:45)
    becomes 02:45 (UTC+12:45): the local times from 02:45 to 03:45 of
    2025-04-06 occur twice. *)
Definition ChathamApril2025 : Zone :=
  transitionZone 1743861600000 49500000 45900000.

(** *** The Reminders page *)
Section HostHandler.
Context `{Zone}.
Variable DateParse : string -> option Z.

Definition recurringSchedule (schedule : string) (now : Z) : Z * string :=
  if (schedule =? "hourly")%string then
    let nextRun := now in
    let nextRun := setHours nextRun (getHours nextRun + 1) 0 0 0 in
    (nextRun, "0 * * * *"%string)
  else if (schedule =? "daily")%string then
    let nextRun := now in
    let nextRun := setHours nextRun 9 0 0 0 in
    let nextRun :=
      if nextRun <=? now then setDate nextRun (getDate nextRun + 1)
      else nextRun in
    (nextRun, "0 9 * * *"%string)
  else if (schedule =? "weekly")%string then
    let nextRun := now in
    let nextRun := setHours nextRun 9 0 0 0 in
    let dayOfWeek := getDay nextRun in
    let daysUntilMonday :=
      if dayOfWeek =? 0 then 1 else Z.rem (8 - dayOfWeek) 7 in
    let nextRun :=
      if (dayOfWeek =? 1) && (nextRun <=? now)
      then setDate nextRun (getDate nextRun + 7)
      else if negb (dayOfWeek =? 1)
           then setDate nextRun (getDate nextRun + daysUntilMonday)
           else nextRun in
    (nextRun, "0 9 * * 1"%string)
  else
    let nextRun := now in
    let nextRun := setDate nextRun (getDate nextRun + 1) in
    (nextRun, "0 9 * * *"%string).

Definition handleSubmit (title type schedule customDateTime : string)
           (now : Z) : Reminders.outcome :=
  if Reminders.isEmpty title || Reminders.isEmpty type
     || Reminders.isEmpty schedule then Reminders.Ignored
  else if (schedule =? "custom")%string then
    if Reminders.isEmpty customDateTime
    then Reminders.Toast "Please select a custom date and time"
    else
      match DateParse customDateTime with
      | Some nextRun =>
          if nextRun <=? now
          then Reminders.Toast "Custom time must be in the future"
          else Reminders.Mutate
                 {| Reminders.title := title; Reminders.type := type;
                    Reminders.schedule_cron := "once";
                    Reminders.next_run_at := nextRun;
                    Reminders.active := true |}
      | None => Reminders.RangeError
      end
  else
    let '(nextRun, scheduleCron) := recurringSchedule schedule now in
    Reminders.Mutate
      {| Reminders.title := title; Reminders.type := type;
         Reminders.schedule_cron := scheduleCron;
         Reminders.next_run_at := nextRun;
         Reminders.active := true |}.
End HostHandler.

(** *** The scheduler *)
Import Scheduler.

(** The world of the pass: the table, the events emitted so far, and
    the number of database calls made so far. *)
Record world := {
  table : list reminder;
  emitted : list due_event;
  calls : nat
}.

(** State and failure: [None] is a rejected promise, thrown by the
    [await] that waits for it.  The world after a failure is the world
    at the moment of the failure. *)
Definition M (A : Type) : Type := world -> option A * world.
Definition ret {A} (a : A) : M A := fun w => (Some a, w).
Definition bind {A B} (m : M A) (k : A -> M B) : M B :=
  fun w => match m w with
           | (Some a, w') => k a w'
           | (None, w') => (None, w')
           end.
Definition run {A} (m : M A) (w : world) : world := snd (m w).
Definition result {A} (m : M A) (w : world) : option A := fst (m w).

Declare Scope host_scope.
Delimit Scope host_scope with host.
Notation "x <- m ;; k" := (bind m (fun x => k))
  (at level 61, m at next level, right associativity) : host_scope.
Notation "m ;;; k" := (bind m (fun _ => k))
  (at level 61, right associativity) : host_scope.

(** [try { body } catch (error) { console.error(...) }] *)
Definition try_catch (body : M unit) : M unit :=
  fun w => (Some tt, snd (body w)).

(** [io.to(room).emit('reminder:due', ...)] *)
Definition emit (e : due_event) : M unit :=
  fun w => (Some tt, {| table := table w;
                        emitted := (emitted w ++ [e])%list;
                        calls := calls w |}).

(** [for (const x of xs) body]: a failure of the body leaves the
    loop. *)
Fixpoint for_of {A} (xs : list A) (body : A -> M unit) : M unit :=
  match xs with
  | [] => ret tt
  | x :: xs' => bind (body x) (fun _ => for_of xs' body)
  end.

Section HostScheduler.
Context `{Zone}.

(** [rejects n]: the database rejects the call that [n] calls have
    gone before. *)
Variable rejects : nat -> bool.

(** [await] of a database call: the call is counted, and it is either
    rejected or carried out. *)
Definition await {A} (query : world -> A * world) : M A :=
  fun w =>
    let w1 := {| table := table w; emitted := emitted w;
                 calls := S (calls w) |} in
    if rejects (calls w) then (None, w1)
    else let '(a, w2) := query w1 in (Some a, w2).

(** [await db.select().from(reminders).where(p)] *)
Definition select_where (p : reminder -> bool) : M (list reminder) :=
  await (fun w => (filter p (table w), w)).

(** [await db.update(reminders).set(f).where(p)] *)
Definition update_where (f : reminder -> reminder) (p : reminder -> bool)
  : M unit :=
  await (fun w =>
           (tt, {| table := map (fun r => if p r then f r else r) (table w);
                   emitted := emitted w;
                   calls := calls w |})).

Definition calculateNextRun (scheduleCron : string) (currentTime : Z) : Z :=
  let nextRun := currentTime in
  if (scheduleCron =? "0 * * * *")%string then
    setHours nextRun (getHours nextRun + 1) 0 0 0
  else if (scheduleCron =? "0 9 * * *")%string then
    let nextRun := setHours nextRun 9 0 0 0 in
    if nextRun <=? currentTime
    then setDate nextRun (getDate nextRun + 1)
    else nextRun
  else if (scheduleCron =? "0 9 * * 1")%string then
    let nextRun := setHours nextRun 9 0 0 0 in
    let dayOfWeek := getDay nextRun in
    let daysUntilMonday :=
      if dayOfWeek =? 0 then 1 else Z.rem (8 - dayOfWeek) 7 in
    if (dayOfWeek =? 1) && (nextRun <=? currentTime)
    then setDate nextRun (getDate nextRun + 7)
    else if negb (dayOfWeek =? 1)
         then setDate nextRun (getDate nextRun + daysUntilMonday)
         else nextRun
  else
    setDate nextRun (getDate nextRun + 1).

Definition selectDue (now : Z) : M (list reminder) :=
  select_where (isDue now).

Definition deactivate (k : Z) : M unit :=
  update_where (set_active false) (fun r => id r =? k).

Definition reschedule (k : Z) (nextRun : Z) : M unit :=
  update_where (set_next_run_at nextRun) (fun r => id r =? k).

(** The body of the loop: the event is emitted first, the update is
    awaited after it. *)
Definition fire (now : Z) (r : reminder) : M unit :=
  (emit (event_of r) ;;;
   if (schedule_cron r =? "once")%string
      || (schedule_cron r =? "custom")%string
   then deactivate (id r)
   else
     let nextRun := calculateNextRun (schedule_cron r) now in
     reschedule (id r) nextRun)%host.

(** One run of the every-minute job at clock reading [now]. *)
Definition tick (now : Z) : M unit :=
  try_catch
    (dueReminders <- selectDue now ;;
     for_of dueReminders (fire now))%host.

(** The specification's Due-Item Store interface. *)
Definition listDue (asOf : Z) : M (list reminder) := selectDue asOf.

Definition markFired (k : Z) (newNextRunAt : option Z) : M unit :=
  match newNextRunAt with
  | Some t => reschedule k t
  | None => deactivate k
  end.

(** The outcome [fire] asks the database to write. *)
Definition outcome (now : Z) (r : reminder) : option Z :=
  if (schedule_cron r =? "once")%string
     || (schedule_cron r =? "custom")%string
  then None
  else Some (calculateNextRun (schedule_cron r) now).

(** What a pass at [now] that runs to its end makes of a row when
    identifiers are unique. *)
Definition settled (now : Z) (x : reminder) : reminder :=
  if isDue now x then written (outcome now x) x else x.

(** The table after the outcome of [r] has been written to the rows
    that carry its identifier, and after the outcomes of the reminders
    of a list have been, one after the other. *)
Definition write_outcome (now : Z) (r : reminder) (tb : list reminder)
  : list reminder :=
  map (fun x => if id x =? id r then written (outcome now r) x else x) tb.

Definition write_outcomes (now : Z) (l tb : list reminder) : list reminder :=
  fold_left (fun tb r => write_outcome now r tb) l tb.

(** How far the loop over [l] gets when it starts after [n] calls: the
    number of reminders whose update is carried out before the first
    rejection. *)
Fixpoint completed (n : nat) (l : list reminder) : nat :=
  match l with
  | [] => O
  | _ :: l' => if rejects n then O else S (completed (S n) l')
  end.

(** The due reminders whose row a pass at [now] rewrites, and those it
    announces: the one whose update is rejected has been announced. *)
Definition rewritten (now : Z) (w : world) : list reminder :=
  let due := filter (isDue now) (table w) in
  if rejects (calls w) then []
  else firstn (completed (S (calls w)) due) due.

Definition announced (now : Z) (w : world) : list reminder :=
  let due := filter (isDue now) (table w) in
  if rejects (calls w) then []
  else firstn (S (completed (S (calls w)) due)) due.
End HostScheduler.

(** The database rejects no call. *)
Definition healthy (rejects : nat -> bool) : Prop :=
  forall n, rejects n = false.

End Host.

(** ** Object signatures: [calculateSimilarity] and [findMatches]

    JavaScript numbers are modelled as exact rationals: the arithmetic of
    the similarity score is carried out without rounding, and [0.7],
    [0.3], [0.9] are the decimal fractions the literals denote. *)
Module ObjectDetection.
Local Open Scope Q_scope.

Record DetectedObject := {
  class : string;
  score : Q;
  bbox : Q * Q * Q * Q
}.

Record ObjectSignature := {
  objects : list DetectedObject;
  dominantObjects : list string;
  objectCount : Q
}.

(** [Array.prototype.includes] on strings *)
Definition includes (l : list string) (x : string) : bool :=
  existsb (String.eqb x) l.

(** [new Set(l)] keeps the first occurrence of every element, in
    insertion order; [.size] is the number of elements kept. *)
Fixpoint Set_of (l : list string) : list string :=
  match l with
  | [] => []
  | x :: l' => x :: filter (fun y => negb (String.eqb x y)) (Set_of l')
  end.

Definition Set_size (l : list string) : Z := Z.of_nat (List.length (Set_of l)).

Definition Math_abs (x : Q) : Q := if Qle_bool 0 x then x else - x.
Definition Math_max2 (x y : Q) : Q := if Qle_bool x y then y else x.
Definition Math_max3 (x y z : Q) : Q := Math_max2 (Math_max2 x y) z.

Definition calculateSimilarity (sig1 sig2 : ObjectSignature) : Q :=
  let shared :=
    filter (fun obj => includes (dominantObjects sig2) obj)
           (dominantObjects sig1) in
  let total := Set_size (dominantObjects sig1 ++ dominantObjects sig2)%list in
  if (total =? 0)%Z then 0
  else
    let objectCountSimilarity :=
      1 - Math_abs (objectCount sig1 - objectCount sig2)
          / Math_max3 (objectCount sig1) (objectCount sig2) 1 in
    let objectSimilarity :=
      inject_Z (Z.of_nat (List.length shared)) / inject_Z total in
    objectSimilarity * (7 # 10) + objectCountSimilarity * (3 # 10).

Record StoredSignature := {
  id : Z;
  signature : ObjectSignature;
  userTag : string
}.

Record Match := {
  m_id : Z;
  m_userTag : string;
  confidence : Q
}.

(** [Array.prototype.sort(compare)]: the sort is stable, and an element
    [a] stays in front of [b] unless [compare a b > 0].  For a
    comparator that orders its arguments consistently the result of a
    stable sort does not depend on the algorithm; insertion is used. *)
Section Sort.
Context {A : Type} (compare : A -> A -> Q).

Fixpoint insert (a : A) (l : list A) : list A :=
  match l with
  | [] => [a]
  | b :: l' =>
      if Qle_bool (compare a b) 0 then a :: b :: l'
      else b :: insert a l'
  end.

Definition sort (l : list A) : list A := fold_right insert [] l.
End Sort.

(** [Array.prototype.slice(0, n)] *)
Definition slice0 {A} (n : nat) (l : list A) : list A := firstn n l.

(** The comparator [(a, b) => b.confidence - a.confidence]. *)
Definition byConfidence (a b : Match) : Q := confidence b - confidence a.

Definition findMatches (newSignature : ObjectSignature)
           (storedSignatures : list StoredSignature) : list Match :=
  let matches :=
    sort byConfidence
      (filter (fun m => Qle_bool (9 # 10) (confidence m))
         (map (fun stored =>
                 {| m_id := id stored;
                    m_userTag := userTag stored;
                    confidence :=
                      calculateSimilarity newSignature (signature stored) |})
              storedSignatures)) in
  slice0 3 matches.

(** [a] may stand in front of [b]: its confidence is not lower. *)
Definition notBelow (a b : Match) : Prop := confidence b <= confidence a.

(** The comparator [(a, b) => b.score - a.score]. *)
Definition byScore (a b : DetectedObject) : Q := score b - score a.

(** [createObjectSignature].  [Array.prototype.sort] sorts in place and
    returns its receiver, so [confidentObjects] and [sortedObjects] are
    one array: the [objects] of the signature are the sorted ones. *)
Definition createObjectSignature (detectedObjects : list DetectedObject)
  : ObjectSignature :=
  let confidentObjects :=
    filter (fun obj => negb (Qle_bool (score obj) (1 # 2))) detectedObjects in
  let sortedObjects := sort byScore confidentObjects in
  let confidentObjects := sortedObjects in
  let dominantObjects := map class (slice0 3 sortedObjects) in
  {| objects := confidentObjects;
     dominantObjects := dominantObjects;
     objectCount := inject_Z (Z.of_nat (List.length confidentObjects)) |}.

(** [Math.round]: the nearest integer, halves going up. *)
Definition Math_round (x : Q) : Z := Qfloor (x + (1 # 2)).

(** The percentage the Identify page prints for a match:
    [Math.round(match.confidence * 100)]. *)
Definition matchPercent (m : Match) : Z := Math_round (confidence m * 100).

(** [matches[0]], the match the Identify page reports as recognized. *)
Definition recognized (matches : list Match) : option Match := hd_error matches.

(** Two lists hold the same strings. *)
Definition sameStrings (l1 l2 : list string) : Prop :=
  forall x, In x l1 <-> In x l2.

(** The scored stored signatures that reach the threshold, in stored
    order: what [findMatches] sorts and cuts. *)
Definition candidates (newSignature : ObjectSignature)
           (storedSignatures : list StoredSignature) : list Match :=
  filter (fun m => Qle_bool (9 # 10) (confidence m))
    (map (fun stored =>
            {| m_id := id stored;
               m_userTag := userTag stored;
               confidence :=
                 calculateSimilarity newSignature (signature stored) |})
         storedSignatures).

End ObjectDetection.

(** ** The notification sound: [NotificationManager.encodeWAV]

    The beep is handed to the audio element as a WAV file that the
    code writes byte by byte through a [DataView].  A buffer is a list of
    bytes; a write outside it raises a [RangeError], modelled as
    [None].  Sample values are 32-bit floats, hence rationals, and their
    product with [0x7FFF] is exact in double precision, so rational
    arithmetic computes what the code computes. *)
Module Wav.

Record AudioBuffer := {
  sampleRate : Q;
  channelData : list Q     (* [getChannelData(0)]; its length is [length] *)
}.

(** [ToIntegerOrInfinity] on a finite number: truncation toward zero. *)
Definition truncate (x : Q) : Z := Z.quot (Qnum x) (Z.pos (Qden x)).

(** The conversions the [DataView] setters apply to their value. *)
Definition ToUint8 (x : Q) : Z := truncate x mod 256.
Definition ToUint16 (x : Q) : Z := truncate x mod 65536.
Definition ToUint32 (x : Q) : Z := truncate x mod 4294967296.
Definition ToInt16 (x : Q) : Z :=
  let u := truncate x mod 65536 in
  if u <? 32768 then u else u - 65536.

(** [new ArrayBuffer(n)]: [n] zero bytes. *)
Definition ArrayBuffer (n : nat) : list Z := repeat 0 n.

Fixpoint store (i : nat) (b : Z) (view : list Z) : list Z :=
  match view, i with
  | [], _ => []
  | _ :: rest, O => b :: rest
  | b0 :: rest, S i' => b0 :: store i' b rest
  end.

(** The little-endian bytes of the low [size] bytes of [v]. *)
Fixpoint bytesLE (size : nat) (v : Z) : list Z :=
  match size with
  | O => []
  | S size' => v mod 256 :: bytesLE size' (v / 256)
  end.

Fixpoint storeAll (i : nat) (bs : list Z) (view : list Z) : list Z :=
  match bs with
  | [] => view
  | b :: bs' => storeAll (S i) bs' (store i b view)
  end.

(** A [DataView] setter of [size] bytes at [byteOffset], little-endian:
    a [RangeError] when the bytes do not fit into the view. *)
Definition setBytes (view : list Z) (byteOffset size : nat) (v : Z)
  : option (list Z) :=
  if (byteOffset + size <=? List.length view)%nat
  then Some (storeAll byteOffset (bytesLE size v) view)
  else None.

Definition setUint8 (view : list Z) (byteOffset : nat) (value : Q) :=
  setBytes view byteOffset 1 (ToUint8 value).
Definition setUint16 (view : list Z) (byteOffset : nat) (value : Q) :=
  setBytes view byteOffset 2 (ToUint16 value).
Definition setUint32 (view : list Z) (byteOffset : nat) (value : Q) :=
  setBytes view byteOffset 4 (ToUint32 value).
(** [setInt16] stores the two's complement of [ToInt16 value], which has
    the bytes of [ToUint16 value]. *)
Definition setInt16 (view : list Z) (byteOffset : nat) (value : Q) :=
  setBytes view byteOffset 2 (ToInt16 value mod 65536).

Definition bindE {A B} (m : option A) (k : A -> option B) : option B :=
  match m with Some a => k a | None => None end.

Declare Scope wav_scope.
Delimit Scope wav_scope with wav.
Notation "x <- m ;; k" := (bindE m (fun x => k))
  (at level 61, m at next level, right associativity) : wav_scope.

Definition charCode (c : Ascii.ascii) : Q := inject_Z (Z.of_N (Ascii.N_of_ascii c)).

(** [writeString]: [for (let i = 0; i < string.length; i++)
    view.setUint8(offset + i, string.charCodeAt(i))]. *)
Fixpoint writeString (view : list Z) (offset : nat) (s : string)
  : option (list Z) :=
  match s with
  | EmptyString => Some view
  | String c s' =>
      (view <- setUint8 view offset (charCode c) ;;
       writeString view (S offset) s')%wav
  end.

Definition Math_min (x y : Q) : Q := if Qle_bool x y then x else y.
Definition Math_max (x y : Q) : Q := if Qle_bool x y then y else x.

(** [Math.max(-1, Math.min(1, x))] *)
Definition clamp (x : Q) : Q := Math_max (-1) (Math_min 1 x).

(** The loop that converts the float samples to 16-bit PCM. *)
Fixpoint writeSamples (view : list Z) (offset : nat) (samples : list Q)
  : option (list Z) :=
  match samples with
  | [] => Some view
  | x :: samples' =>
      let sample := clamp x in
      (view <- setInt16 view offset (sample * 32767) ;;
       writeSamples view (offset + 2) samples')%wav
  end.

Definition encodeWAV (audioBuffer : AudioBuffer) : option (list Z) :=
  let length := List.length (channelData audioBuffer) in
  let view := ArrayBuffer (44 + length * 2) in
  let size := inject_Z (Z.of_nat length) in
  (view <- writeString view 0 "RIFF" ;;
   view <- setUint32 view 4 (36 + size * 2) ;;
   view <- writeString view 8 "WAVE" ;;
   view <- writeString view 12 "fmt " ;;
   view <- setUint32 view 16 16 ;;
   view <- setUint16 view 20 1 ;;
   view <- setUint16 view 22 1 ;;
   view <- setUint32 view 24 (sampleRate audioBuffer) ;;
   view <- setUint32 view 28 (sampleRate audioBuffer * 2) ;;
   view <- setUint16 view 32 2 ;;
   view <- setUint16 view 34 16 ;;
   view <- writeString view 36 "data" ;;
   view <- setUint32 view 40 (size * 2) ;;
   writeSamples view 44 (channelData audioBuffer))%wav.

(** The matching [DataView] getters, little-endian, for the
    statements: what a reader of the file sees. *)
Definition getUint8 (bytes : list Z) (off : nat) : Z := nth off bytes 0.
Definition getUint16 (bytes : list Z) (off : nat) : Z :=
  getUint8 bytes off + 256 * getUint8 bytes (off + 1).
Definition getUint32 (bytes : list Z) (off : nat) : Z :=
  getUint16 bytes off + 65536 * getUint16 bytes (off + 2).
Definition getInt16 (bytes : list Z) (off : nat) : Z :=
  let u := getUint16 bytes off in if u <? 32768 then u else u - 65536.
Definition getString (bytes : list Z) (off len : nat) : list Z :=
  firstn len (skipn off bytes).

(** The layout of the file: the bytes of a tag, the 44 bytes of the
    header for [length] samples at [rate], and the two bytes of a
    sample. *)
Definition tagBytes (s : string) : list Z :=
  map (fun c => ToUint8 (charCode c) mod 256) (list_ascii_of_string s).

Definition headerBytes (length : nat) (rate : Q) : list Z :=
  let size := inject_Z (Z.of_nat length) in
  (tagBytes "RIFF" ++ bytesLE 4 (ToUint32 (36 + size * 2))
   ++ tagBytes "WAVE" ++ tagBytes "fmt "
   ++ bytesLE 4 (ToUint32 16)
   ++ bytesLE 2 (ToUint16 1) ++ bytesLE 2 (ToUint16 1)
   ++ bytesLE 4 (ToUint32 rate) ++ bytesLE 4 (ToUint32 (rate * 2))
   ++ bytesLE 2 (ToUint16 2) ++ bytesLE 2 (ToUint16 16)
   ++ tagBytes "data" ++ bytesLE 4 (ToUint32 (size * 2)))%list.

(** The 16-bit value a sample is stored as. *)
Definition pcm16 (x : Q) : Z := ToInt16 (clamp x * 32767).

Definition sampleBytes (x : Q) : list Z := bytesLE 2 (pcm16 x mod 65536).

End Wav.

(** ** Vocabulary of the statements

    The recurrence kinds of the specification, in the representation the
    code keeps them in: [schedule_cron] holds a five-field cron
    expression (minute, hour, day of month, month, day of week).  The
    Reminders page writes ["0 * * * *"] for its hourly schedule,
    ["0 9 * * *"] for "Daily at 9:00 AM" and ["0 9 * * 1"] for "Weekly
    (Monday 9:00 AM)". *)

Definition decimal (z : Z) : string := NilZero.string_of_int (Z.to_int z).

Definition cronHourly : string := "0 * * * *".

Definition cronDailyAt (h m : Z) : string :=
  (decimal m ++ " " ++ decimal h ++ " * * *")%string.

Definition cronWeeklyAt (weekday h m : Z) : string :=
  (decimal m ++ " " ++ decimal h ++ " * * " ++ decimal weekday)%string.

(** The period of the three expressions the scheduler knows. *)
Definition knownPeriod (scheduleCron : string) : option Z :=
  if (scheduleCron =? "0 * * * *")%string then Some msPerHour
  else if (scheduleCron =? "0 9 * * *")%string then Some msPerDay
  else if (scheduleCron =? "0 9 * * 1")%string then Some (7 * msPerDay)
  else None.

Section Instants.
Context `{LocalZone}.

(** The instant [h:m:00.000] local time on the calendar day [k] days
    after the local day of [now]. *)
Definition atLocalDay (now : Z) (k h m : Z) : Z :=
  UTC (MakeDate (Day (LocalTime now) + k) (MakeTime h m 0 0)).

(** The first whole hour of local time strictly after [now]. *)
Definition startOfNextHour (now : Z) : Z :=
  UTC ((LocalTime now / msPerHour + 1) * msPerHour).

(** Today at [h:m] if that is strictly after [now], else tomorrow at
    [h:m]. *)
Definition dailyAt (h m : Z) (now : Z) : Z :=
  if now <? atLocalDay now 0 h m then atLocalDay now 0 h m
  else atLocalDay now 1 h m.

(** On [weekday] before [h:m]: today; on [weekday] at or after [h:m]:
    in seven days; on another day: after the number of days to the
    next [weekday]. *)
Definition weeklyAt (weekday h m : Z) (now : Z) : Z :=
  if getDay now =? weekday then
    if now <? atLocalDay now 0 h m then atLocalDay now 0 h m
    else atLocalDay now 7 h m
  else atLocalDay now ((weekday - getDay now) mod 7) h m.

(** [r] falls on [weekday] at [h:m:00.000] local time. *)
Definition occursAt (weekday h m : Z) (r : Z) : Prop :=
  getDay r = weekday /\ TimeWithinDay (LocalTime r) = MakeTime h m 0 0.

(** [r] is the first such instant strictly after [now]. *)
Definition nextOccurrence (weekday h m : Z) (now r : Z) : Prop :=
  occursAt weekday h m r /\ now < r /\
  forall r', occursAt weekday h m r' -> now < r' -> r <= r'.
End Instants.


(* ================================================================== *)
(** * Part II: properties                                              *)
(* ================================================================== *)

(** ** The calendar *)

Lemma Day_TimeWithinDay (t : Z) :
  t = Day t * msPerDay + TimeWithinDay t /\ 0 <= TimeWithinDay t < msPerDay.
Proof.
  unfold Day, TimeWithinDay, msPerDay. split.
  - pose proof (Z.div_mod t 86400000). lia.
  - apply Z.mod_pos_bound. lia.
Qed.

Lemma Day_MakeDate (d tm : Z) :
  0 <= tm < msPerDay -> Day (MakeDate d tm) = d /\ TimeWithinDay (MakeDate d tm) = tm.
Proof.
  intros Htm. unfold Day, TimeWithinDay, MakeDate, msPerDay in *. split.
  - rewrite Z.div_add_l by lia. rewrite Z.div_small by lia. lia.
  - rewrite Z.add_comm, Z.mod_add by lia. apply Z.mod_small. lia.
Qed.

(** A year is a leap year exactly when the next one starts 366 days
    later. *)
Lemma DaysInYear_DayFromYear (y : Z) :
  DayFromYear (y + 1) - DayFromYear y = DaysInYear y.
Proof.
  unfold DayFromYear, DaysInYear, isLeapYear.
  destruct (y mod 4 =? 0) eqn:E4; destruct (y mod 100 =? 0) eqn:E100;
    destruct (y mod 400 =? 0) eqn:E400; cbn [negb];
    rewrite ?Z.eqb_eq, ?Z.eqb_neq in *;
    Z.div_mod_to_equations; lia.
Qed.

Lemma DaysInYear_range (y : Z) : DaysInYear y = 365 \/ DaysInYear y = 366.
Proof. unfold DaysInYear. destruct (isLeapYear y); auto. Qed.

Lemma DayFromYear_lt (y y' : Z) : y < y' -> DayFromYear y < DayFromYear y'.
Proof.
  intros Hlt. replace y' with (y + 1 + (y' - y - 1)) by lia.
  assert (Hn : 0 <= y' - y - 1) by lia. revert Hn.
  generalize (y' - y - 1). intros n Hn. pattern n.
  apply natlike_ind; [| | exact Hn].
  - rewrite Z.add_0_r. pose proof (DaysInYear_DayFromYear y).
    destruct (DaysInYear_range y); lia.
  - intros x Hx IH. replace (y + 1 + Z.succ x) with (y + 1 + x + 1) by lia.
    pose proof (DaysInYear_DayFromYear (y + 1 + x)).
    destruct (DaysInYear_range (y + 1 + x)); lia.
Qed.

Lemma YearFromDay_bounds (d : Z) :
  DayFromYear (YearFromDay d) <= d < DayFromYear (YearFromDay d + 1).
Proof.
  unfold YearFromDay, DayFromYear.
  Z.div_mod_to_equations. lia.
Qed.

(** [YearFromTime] is the year the specification defines: the largest
    [y] with [TimeFromYear y <= t]. *)
Lemma YearFromTime_spec (t : Z) :
  TimeFromYear (YearFromTime t) <= t < TimeFromYear (YearFromTime t + 1).
Proof.
  unfold TimeFromYear, YearFromTime.
  pose proof (YearFromDay_bounds (Day t)) as [Hlo Hhi].
  pose proof (Day_TimeWithinDay t) as [Ht Hr].
  unfold msPerDay in *. lia.
Qed.

Lemma YearFromTime_largest (t y : Z) :
  TimeFromYear y <= t -> y <= YearFromTime t.
Proof.
  intros Hy. destruct (Z_le_gt_dec y (YearFromTime t)) as [|Hgt]; [assumption|].
  exfalso.
  assert (Hm : DayFromYear (YearFromTime t + 1) <= DayFromYear y).
  { destruct (Z.eq_dec y (YearFromTime t + 1)) as [->|Hne]; [lia|].
    apply Z.lt_le_incl, DayFromYear_lt. lia. }
  pose proof (YearFromTime_spec t) as [_ Hhi].
  unfold TimeFromYear, msPerDay in *. lia.
Qed.

Lemma DayWithinYear_range (t : Z) :
  0 <= DayWithinYear t < DaysInYear (YearFromTime t).
Proof.
  unfold DayWithinYear, YearFromTime.
  pose proof (YearFromDay_bounds (Day t)).
  pose proof (DaysInYear_DayFromYear (YearFromDay (Day t))). lia.
Qed.

Lemma InLeapYear_range (t : Z) : InLeapYear t = 0 \/ InLeapYear t = 1.
Proof. unfold InLeapYear. destruct (_ =? _); auto. Qed.

(** The month and the day of the month locate the day within its year. *)
Lemma Month_Date_DayWithinYear (t : Z) :
  0 <= MonthFromTime t <= 11 /\
  DayWithinYearOfMonth (MonthFromTime t) (InLeapYear t) + DateFromTime t - 1
  = DayWithinYear t.
Proof.
  unfold DateFromTime, MonthFromTime.
  generalize (DayWithinYear t) (InLeapYear t). intros d leap.
  repeat match goal with
         | |- context [if ?b then _ else _] => destruct b
         end; cbn [DayWithinYearOfMonth]; lia.
Qed.

(** Setting the day of the month to the current one plus [k] moves the
    day number by [k]: month and year overflow are absorbed by
    [MakeDay]. *)
Lemma MakeDay_shift (t k : Z) :
  MakeDay (YearFromTime t) (MonthFromTime t) (DateFromTime t + k) = Day t + k.
Proof.
  destruct (Month_Date_DayWithinYear t) as [Hm Hd].
  unfold MakeDay.
  rewrite (Z.div_small (MonthFromTime t) 12), (Z.mod_small (MonthFromTime t) 12) by lia.
  rewrite Z.add_0_r.
  change (if DaysInYear (YearFromTime t) =? 366 then 1 else 0) with (InLeapYear t).
  unfold DayWithinYear in Hd. lia.
Qed.

Lemma YearFromDay_unique (d y : Z) :
  DayFromYear y <= d < DayFromYear (y + 1) -> YearFromDay d = y.
Proof.
  intros [Hlo Hhi]. pose proof (YearFromDay_bounds d) as [Glo Ghi].
  destruct (Z.lt_trichotomy (YearFromDay d) y) as [Hlt|[Heq|Hgt]]; [|assumption|].
  - assert (DayFromYear (YearFromDay d + 1) <= DayFromYear y).
    { destruct (Z.eq_dec (YearFromDay d + 1) y) as [->|]; [lia|].
      apply Z.lt_le_incl, DayFromYear_lt. lia. }
    lia.
  - assert (DayFromYear (y + 1) <= DayFromYear (YearFromDay d)).
    { destruct (Z.eq_dec (y + 1) (YearFromDay d)) as [->|]; [lia|].
      apply Z.lt_le_incl, DayFromYear_lt. lia. }
    lia.
Qed.

(** [MakeDay year month 1] is the day number of a day whose year is
    [year + month / 12], whose month is [month mod 12] and whose day of
    the month is 1, as the specification of [MakeDay] requires. *)
Lemma MakeDay_first_of_month (year month : Z) :
  let t := MakeDate (MakeDay year month 1) 0 in
  YearFromTime t = year + month / 12 /\
  MonthFromTime t = month mod 12 /\
  DateFromTime t = 1.
Proof.
  intros t.
  assert (HD : Day t = MakeDay year month 1).
  { apply Day_MakeDate. unfold msPerDay. lia. }
  set (ym := year + month / 12). set (mn := month mod 12).
  assert (Hmn : 0 <= mn < 12) by (apply Z.mod_pos_bound; lia).
  set (leap := if DaysInYear ym =? 366 then 1 else 0).
  assert (HMD : MakeDay year month 1 = DayFromYear ym + DayWithinYearOfMonth mn leap).
  { unfold MakeDay. fold ym mn leap. lia. }
  assert (Hoff : 0 <= DayWithinYearOfMonth mn leap /\
                 DayWithinYearOfMonth mn leap + 31 <= DaysInYear ym).
  { pose proof (DaysInYear_range ym) as Hr. subst leap.
    destruct (DaysInYear ym =? 366) eqn:E;
      rewrite ?Z.eqb_eq, ?Z.eqb_neq in E;
      assert (Hc : mn = 0 \/ mn = 1 \/ mn = 2 \/ mn = 3 \/ mn = 4 \/ mn = 5 \/
                   mn = 6 \/ mn = 7 \/ mn = 8 \/ mn = 9 \/ mn = 10 \/ mn = 11) by lia;
      repeat (destruct Hc as [-> | Hc]); try subst mn; try rewrite Hc;
        cbn [DayWithinYearOfMonth]; lia. }
  assert (HY : YearFromTime t = ym).
  { unfold YearFromTime. rewrite HD, HMD. apply YearFromDay_unique.
    pose proof (DaysInYear_DayFromYear ym). lia. }
  assert (HL : InLeapYear t = leap).
  { unfold InLeapYear. rewrite HY. reflexivity. }
  assert (HW : DayWithinYear t = DayWithinYearOfMonth mn leap).
  { unfold DayWithinYear. rewrite HY, HD, HMD. lia. }
  split; [exact HY|].
  assert (HM : MonthFromTime t = mn).
  { unfold MonthFromTime. rewrite HW, HL.
    assert (Hl : leap = 0 \/ leap = 1) by (subst leap; destruct (_ =? _); auto).
    assert (Hc : mn = 0 \/ mn = 1 \/ mn = 2 \/ mn = 3 \/ mn = 4 \/ mn = 5 \/
                 mn = 6 \/ mn = 7 \/ mn = 8 \/ mn = 9 \/ mn = 10 \/ mn = 11) by lia.
    clear - Hl Hc. destruct Hl as [-> | ->];
      repeat (destruct Hc as [-> | Hc]); try rewrite Hc; reflexivity. }
  split; [exact HM|].
  pose proof (Month_Date_DayWithinYear t) as [_ Hd].
  rewrite HM, HL, HW in Hd. lia.
Qed.

(** A few dates, to check the calendar against known values. *)
Example epoch_is_a_thursday : WeekDay 0 = 4.
Proof. reflexivity. Qed.

Example new_year_2025 :
  @newDate UTCZone 2025 0 1 0 0 0 0 = 1735689600000 /\
  @getDay UTCZone 1735689600000 = 3.
Proof. split; reflexivity. Qed.

Example leap_day_2000 :
  let t := @newDate UTCZone 2000 1 29 12 0 0 0 in
  YearFromTime t = 2000 /\ MonthFromTime t = 1 /\ DateFromTime t = 29.
Proof. repeat split; reflexivity. Qed.

Example new_years_eve_plus_one :
  let t := @newDate ISTZone 2024 11 31 22 15 0 0 in
  @setDate ISTZone t (@getDate ISTZone t + 1) = @newDate ISTZone 2025 0 1 22 15 0 0.
Proof. vm_compute. reflexivity. Qed.

(** ** The [Date] methods *)

Section DateFacts.
Context `{LocalZone}.

Lemma LocalTime_UTC (t : Z) : LocalTime (UTC t) = t.
Proof. unfold LocalTime, UTC. lia. Qed.

Lemma UTC_LocalTime (t : Z) : UTC (LocalTime t) = t.
Proof. unfold LocalTime, UTC. lia. Qed.

(** [d.setDate(d.getDate() + k)] moves [d] by [k] whole days. *)
Lemma setDate_getDate (t k : Z) :
  setDate t (getDate t + k) = t + k * msPerDay.
Proof.
  unfold setDate, getDate. rewrite MakeDay_shift.
  pose proof (Day_TimeWithinDay (LocalTime t)) as [Ht _].
  unfold MakeDate, UTC, LocalTime in *. lia.
Qed.

Lemma setHours_atLocalDay (t h m : Z) :
  setHours t h m 0 0 = atLocalDay t 0 h m.
Proof. unfold setHours, atLocalDay. rewrite Z.add_0_r. reflexivity. Qed.

Lemma atLocalDay_shift (now k h m : Z) :
  atLocalDay now k h m = atLocalDay now 0 h m + k * msPerDay.
Proof. unfold atLocalDay, MakeDate, UTC. lia. Qed.

(** The local day and the time of day of [atLocalDay]. *)
Lemma atLocalDay_fields (now k h m : Z) :
  0 <= MakeTime h m 0 0 < msPerDay ->
  Day (LocalTime (atLocalDay now k h m)) = Day (LocalTime now) + k /\
  TimeWithinDay (LocalTime (atLocalDay now k h m)) = MakeTime h m 0 0.
Proof.
  intros Hr. unfold atLocalDay. rewrite LocalTime_UTC.
  apply Day_MakeDate. exact Hr.
Qed.

Lemma getDay_atLocalDay (now k h m : Z) :
  0 <= MakeTime h m 0 0 < msPerDay ->
  getDay (atLocalDay now k h m) = (getDay now + k) mod 7.
Proof.
  intros Hr. unfold getDay, WeekDay.
  destruct (atLocalDay_fields now k h m Hr) as [-> _].
  rewrite <- Z.add_assoc, (Z.add_comm k 4), Z.add_assoc.
  rewrite <- (Zplus_mod_idemp_l (Day (LocalTime now) + 4)). reflexivity.
Qed.

Lemma getDay_range (t : Z) : 0 <= getDay t < 7.
Proof. unfold getDay, WeekDay. apply Z.mod_pos_bound. lia. Qed.

(** Today's [h:m] is later than the start of today, and tomorrow's
    start is later than [now]. *)
Lemma atLocalDay_today (now h m : Z) :
  0 <= MakeTime h m 0 0 < msPerDay ->
  now - msPerDay < atLocalDay now 0 h m < now + msPerDay.
Proof.
  intros Hr. unfold atLocalDay, MakeDate, UTC.
  pose proof (Day_TimeWithinDay (LocalTime now)) as [Ht Hw].
  unfold LocalTime in *. lia.
Qed.

(** The hourly step: the day of [now] at hour [getHours now + 1]. *)
Lemma setHours_next_hour (now : Z) :
  setHours now (getHours now + 1) 0 0 0 = startOfNextHour now.
Proof.
  unfold setHours, getHours, startOfNextHour, MakeDate, MakeTime,
    HourFromTime, Day, HoursPerDay, msPerDay, msPerHour, msPerMinute,
    msPerSecond.
  f_equal. generalize (LocalTime now). intros lt.
  Z.div_mod_to_equations. lia.
Qed.

Lemma startOfNextHour_bounds (now : Z) :
  now < startOfNextHour now <= now + msPerHour.
Proof.
  unfold startOfNextHour, UTC, LocalTime, msPerHour.
  Z.div_mod_to_equations. lia.
Qed.
End DateFacts.

(** ** The next-run computation *)

Section NextRun.
Context `{LocalZone}.
Import Scheduler Reminders.

Lemma UTC_ltb (a b : Z) : (UTC a <? UTC b) = (a <? b).
Proof.
  unfold UTC. destruct (Z.ltb_spec a b), (Z.ltb_spec (a - LocalTZA) (b - LocalTZA));
    auto; lia.
Qed.

Lemma atLocalDay_newDate (y mo d hh mm ss ms k h m : Z) :
  atLocalDay (newDate y mo d hh mm ss ms) k h m
  = UTC (MakeDate (Day (MakeDate (MakeDay y mo d) (MakeTime hh mm ss ms)) + k)
                  (MakeTime h m 0 0)).
Proof. unfold atLocalDay, newDate. rewrite LocalTime_UTC. reflexivity. Qed.

Lemma nine_in_day : 0 <= MakeTime 9 0 0 0 < msPerDay.
Proof. vm_compute. split; discriminate || reflexivity. Qed.

(** *** The three known expressions and the fallback, branch by branch *)

Lemma calculateNextRun_hourly (now : Z) :
  calculateNextRun "0 * * * *" now = startOfNextHour now.
Proof. unfold calculateNextRun. cbn [String.eqb Ascii.eqb Bool.eqb].
       apply setHours_next_hour. Qed.

Lemma calculateNextRun_daily (now : Z) :
  calculateNextRun "0 9 * * *" now = dailyAt 9 0 now.
Proof.
  unfold calculateNextRun, dailyAt. cbn [String.eqb Ascii.eqb Bool.eqb].
  rewrite setHours_atLocalDay, setDate_getDate, <- atLocalDay_shift.
  destruct (Z.leb_spec (atLocalDay now 0 9 0) now),
           (Z.ltb_spec now (atLocalDay now 0 9 0)); auto; lia.
Qed.

Lemma calculateNextRun_weekly (now : Z) :
  calculateNextRun "0 9 * * 1" now = weeklyAt 1 9 0 now.
Proof.
  unfold calculateNextRun, weeklyAt. cbn [String.eqb Ascii.eqb Bool.eqb].
  rewrite setHours_atLocalDay, !setDate_getDate, <- !atLocalDay_shift.
  rewrite (getDay_atLocalDay now 0 9 0 nine_in_day), Z.add_0_r.
  pose proof (getDay_range now) as Hr.
  rewrite (Z.mod_small (getDay now) 7) by lia.
  destruct (Z.eqb_spec (getDay now) 1) as [E1|N1]; cbn [andb negb].
  - destruct (Z.leb_spec (atLocalDay now 0 9 0) now),
             (Z.ltb_spec now (atLocalDay now 0 9 0)); auto; lia.
  - f_equal. destruct (Z.eqb_spec (getDay now) 0) as [E0|N0].
    + rewrite E0. reflexivity.
    + assert (Hc : getDay now = 2 \/ getDay now = 3 \/ getDay now = 4 \/
                   getDay now = 5 \/ getDay now = 6) by lia.
      destruct Hc as [-> | [-> | [-> | [-> | ->]]]]; reflexivity.
Qed.

Lemma calculateNextRun_fallback (scheduleCron : string) (now : Z) :
  scheduleCron <> "0 * * * *"%string ->
  scheduleCron <> "0 9 * * *"%string ->
  scheduleCron <> "0 9 * * 1"%string ->
  calculateNextRun scheduleCron now = now + msPerDay.
Proof.
  intros H1 H2 H3. unfold calculateNextRun.
  apply String.eqb_neq in H1, H2, H3. rewrite H1, H2, H3.
  rewrite setDate_getDate. lia.
Qed.

(** The handler's branches compute what the scheduler computes for the
    expression they store. *)
Lemma recurringSchedule_hourly (now : Z) :
  recurringSchedule "hourly" now = (calculateNextRun "0 * * * *" now, "0 * * * *"%string).
Proof. reflexivity. Qed.

Lemma recurringSchedule_daily (now : Z) :
  recurringSchedule "daily" now = (calculateNextRun "0 9 * * *" now, "0 9 * * *"%string).
Proof. reflexivity. Qed.

Lemma recurringSchedule_weekly (now : Z) :
  recurringSchedule "weekly" now = (calculateNextRun "0 9 * * 1" now, "0 9 * * 1"%string).
Proof. reflexivity. Qed.

Lemma recurringSchedule_fallback (schedule : string) (now : Z) :
  schedule <> "hourly"%string ->
  schedule <> "daily"%string ->
  schedule <> "weekly"%string ->
  recurringSchedule schedule now = (now + msPerDay, "0 9 * * *"%string).
Proof.
  intros H1 H2 H3. unfold recurringSchedule.
  apply String.eqb_neq in H1, H2, H3. rewrite H1, H2, H3.
  rewrite setDate_getDate. f_equal; lia.
Qed.

(** *** Each of the four results is later than [now] *)

Lemma dailyAt_after (h m now : Z) :
  0 <= MakeTime h m 0 0 < msPerDay -> now < dailyAt h m now.
Proof.
  intros Hr. unfold dailyAt.
  destruct (Z.ltb_spec now (atLocalDay now 0 h m)); [assumption|].
  rewrite atLocalDay_shift. pose proof (atLocalDay_today now h m Hr). lia.
Qed.

Lemma weeklyAt_after (weekday h m now : Z) :
  0 <= weekday < 7 ->
  0 <= MakeTime h m 0 0 < msPerDay -> now < weeklyAt weekday h m now.
Proof.
  intros Hwd Hr. unfold weeklyAt. pose proof (atLocalDay_today now h m Hr) as Ht.
  destruct (Z.eqb_spec (getDay now) weekday) as [E|N].
  - destruct (Z.ltb_spec now (atLocalDay now 0 h m)); [assumption|].
    rewrite atLocalDay_shift. unfold msPerDay in *. lia.
  - rewrite atLocalDay_shift.
    assert (1 <= (weekday - getDay now) mod 7).
    { pose proof (getDay_range now). unfold getDay, WeekDay in *.
      Z.div_mod_to_equations. lia. }
    unfold msPerDay in *. lia.
Qed.

Lemma calculateNextRun_after (scheduleCron : string) (now : Z) :
  now < calculateNextRun scheduleCron now.
Proof.
  destruct (string_dec scheduleCron "0 * * * *") as [->|H1].
  { rewrite calculateNextRun_hourly. apply startOfNextHour_bounds. }
  destruct (string_dec scheduleCron "0 9 * * *") as [->|H2].
  { rewrite calculateNextRun_daily. apply dailyAt_after, nine_in_day. }
  destruct (string_dec scheduleCron "0 9 * * 1") as [->|H3].
  { rewrite calculateNextRun_weekly. apply weeklyAt_after; [lia | apply nine_in_day]. }
  rewrite calculateNextRun_fallback by assumption. unfold msPerDay. lia.
Qed.

Lemma recurringSchedule_after (schedule : string) (now : Z) :
  now < fst (recurringSchedule schedule now).
Proof.
  destruct (string_dec schedule "hourly") as [->|H1].
  { rewrite recurringSchedule_hourly. apply calculateNextRun_after. }
  destruct (string_dec schedule "daily") as [->|H2].
  { rewrite recurringSchedule_daily. apply calculateNextRun_after. }
  destruct (string_dec schedule "weekly") as [->|H3].
  { rewrite recurringSchedule_weekly. apply calculateNextRun_after. }
  rewrite recurringSchedule_fallback by assumption. cbn [fst].
  unfold msPerDay. lia.
Qed.
(** No result is more than eight days after [now]. *)
Lemma calculateNextRun_within_8_days (scheduleCron : string) (now : Z) :
  calculateNextRun scheduleCron now <= now + 8 * msPerDay.
Proof.
  pose proof (atLocalDay_today now 9 0 nine_in_day) as Ht.
  destruct (string_dec scheduleCron "0 * * * *") as [->|H1].
  { rewrite calculateNextRun_hourly.
    pose proof (startOfNextHour_bounds now). unfold msPerDay, msPerHour in *. lia. }
  destruct (string_dec scheduleCron "0 9 * * *") as [->|H2].
  { rewrite calculateNextRun_daily. unfold dailyAt.
    destruct (now <? atLocalDay now 0 9 0);
      rewrite ?(atLocalDay_shift now 1); unfold msPerDay in *; lia. }
  destruct (string_dec scheduleCron "0 9 * * 1") as [->|H3].
  { rewrite calculateNextRun_weekly. unfold weeklyAt.
    assert (Hk : 0 <= (1 - getDay now) mod 7 < 7) by (apply Z.mod_pos_bound; lia).
    destruct (getDay now =? 1); [destruct (now <? atLocalDay now 0 9 0)|];
      rewrite ?(atLocalDay_shift now 7), ?(atLocalDay_shift now ((1 - getDay now) mod 7));
      unfold msPerDay in *; lia. }
  rewrite calculateNextRun_fallback by assumption. unfold msPerDay. lia.
Qed.
End NextRun.

Section NextRunClaims.
Context `{LocalZone}.
Import Scheduler Reminders.

(** [weeklyAt] is the first occurrence of the weekday at [h:m] that is
    strictly after [now]. *)
Lemma weeklyAt_nextOccurrence (weekday h m now : Z) :
  0 <= weekday < 7 ->
  0 <= MakeTime h m 0 0 < msPerDay ->
  nextOccurrence weekday h m now (weeklyAt weekday h m now).
Proof.
  intros Hwd Hr. split; [|split].
  - (* it falls on the weekday, at h:m *)
    unfold weeklyAt.
    pose proof (getDay_range now) as Hg.
    destruct (Z.eqb_spec (getDay now) weekday) as [E|N].
    + destruct (now <? atLocalDay now 0 h m); split;
        try apply (atLocalDay_fields now _ h m Hr);
        rewrite getDay_atLocalDay by assumption;
        Z.div_mod_to_equations; lia.
    + split; [|apply (atLocalDay_fields now _ h m Hr)].
      rewrite getDay_atLocalDay by assumption.
      Z.div_mod_to_equations; lia.
  - apply weeklyAt_after; assumption.
  - intros r' [Hd' Ht'] Hlt.
    pose proof (Day_TimeWithinDay (LocalTime r')) as [Hr' _].
    pose proof (Day_TimeWithinDay (LocalTime now)) as [Hn Hw].
    rewrite Ht' in Hr'.
    unfold weeklyAt, atLocalDay, getDay, WeekDay, MakeDate, UTC in *.
    revert Hr' Hn Hw Hd' Hlt Hr.
    generalize (MakeTime h m 0 0) (Day (LocalTime r')) (Day (LocalTime now))
               (TimeWithinDay (LocalTime now)).
    unfold LocalTime, msPerDay. intros T D' D w Hr' Hn Hw Hd' Hlt Hr.
    destruct (Z.eqb_spec ((D + 4) mod 7) weekday) as [E|N].
    + destruct (Z.ltb_spec now ((D + 0) * 86400000 + T - LocalTZA));
        Z.div_mod_to_equations; lia.
    + Z.div_mod_to_equations; lia.
Qed.

Lemma if_UTC (b : bool) (x y : Z) :
  (if b then UTC x else UTC y) = UTC (if b then x else y).
Proof. destruct b; reflexivity. Qed.

(** Evaluation of [dailyAt] and [weeklyAt] at a reference time given by
    its local calendar fields: the zone offset drops out. *)
Lemma dailyAt_newDate (h m y mo d hh mm ss ms : Z) :
  dailyAt h m (newDate y mo d hh mm ss ms)
  = UTC (let lt := MakeDate (MakeDay y mo d) (MakeTime hh mm ss ms) in
         if lt <? MakeDate (Day lt + 0) (MakeTime h m 0 0)
         then MakeDate (Day lt + 0) (MakeTime h m 0 0)
         else MakeDate (Day lt + 1) (MakeTime h m 0 0)).
Proof.
  unfold dailyAt. rewrite !atLocalDay_newDate. unfold newDate at 1.
  rewrite UTC_ltb, if_UTC. reflexivity.
Qed.

Lemma weeklyAt_newDate (wd h m y mo d hh mm ss ms : Z) :
  weeklyAt wd h m (newDate y mo d hh mm ss ms)
  = UTC (let lt := MakeDate (MakeDay y mo d) (MakeTime hh mm ss ms) in
         if WeekDay lt =? wd then
           if lt <? MakeDate (Day lt + 0) (MakeTime h m 0 0)
           then MakeDate (Day lt + 0) (MakeTime h m 0 0)
           else MakeDate (Day lt + 7) (MakeTime h m 0 0)
         else MakeDate (Day lt + (wd - WeekDay lt) mod 7) (MakeTime h m 0 0)).
Proof.
  unfold weeklyAt. rewrite !atLocalDay_newDate.
  unfold getDay. unfold newDate at 1 2 3. rewrite LocalTime_UTC.
  rewrite UTC_ltb, !if_UTC. reflexivity.
Qed.



(** C3, as the code has it.  The daily recurrence exists at 09:00 only
    (the expression [cronDailyAt 9 0], stored for the schedule
    "daily").  For every reference time [now] its next run is today at
    09:00:00.000 if that instant is strictly after [now], and tomorrow
    at 09:00:00.000 otherwise; 2025-01-01T07:00:00 yields
    2025-01-01T09:00:00 and 2025-01-01T09:30:00 yields
    2025-01-02T09:00:00. *)
Theorem daily_next_run (now : Z) :
  let r := calculateNextRun (cronDailyAt 9 0) now in
  recurringSchedule "daily" now = (r, cronDailyAt 9 0) /\
  r = dailyAt 9 0 now /\
  calculateNextRun (cronDailyAt 9 0) (newDate 2025 0 1 7 0 0 0)
  = newDate 2025 0 1 9 0 0 0 /\
  calculateNextRun (cronDailyAt 9 0) (newDate 2025 0 1 9 30 0 0)
  = newDate 2025 0 2 9 0 0 0.
Proof.
  change (cronDailyAt 9 0) with "0 9 * * *"%string. intros r.
  split; [reflexivity|].
  split; [apply calculateNextRun_daily|].
  split; rewrite calculateNextRun_daily, dailyAt_newDate;
    apply (f_equal UTC); vm_compute; reflexivity.
Qed.

(** C4, as the code has it.  The weekly recurrence exists for Monday
    09:00 only (the expression [cronWeeklyAt 1 9 0], stored for the
    schedule "weekly").  For every reference time [now] its next run is
    the first Monday 09:00:00.000 strictly after [now]: today at 09:00
    when [now] is a Monday before 09:00, seven days later at 09:00
    when [now] is a Monday at or after 09:00, and otherwise 09:00 on
    the day that is the day-delta to the next Monday ahead; on every
    Monday at 10:00 the next run is the following Monday at 09:00. *)
Theorem weekly_next_run (now : Z) :
  let r := calculateNextRun (cronWeeklyAt 1 9 0) now in
  recurringSchedule "weekly" now = (r, cronWeeklyAt 1 9 0) /\
  r = weeklyAt 1 9 0 now /\
  nextOccurrence 1 9 0 now r /\
  (forall week : Z,
      let monday := 4 + 7 * week in
      WeekDay (MakeDate monday 0) = 1 /\
      calculateNextRun (cronWeeklyAt 1 9 0)
        (UTC (MakeDate monday (MakeTime 10 0 0 0)))
      = UTC (MakeDate (monday + 7) (MakeTime 9 0 0 0))) /\
  calculateNextRun (cronWeeklyAt 1 9 0) (newDate 2025 0 6 10 0 0 0)
  = newDate 2025 0 13 9 0 0 0.
Proof.
  change (cronWeeklyAt 1 9 0) with "0 9 * * 1"%string. intros r.
  split; [reflexivity|].
  split; [apply calculateNextRun_weekly|].
  split.
  { unfold r. rewrite calculateNextRun_weekly.
    apply weeklyAt_nextOccurrence; [lia | apply nine_in_day]. }
  split.
  - intros week monday.
    assert (Hten : 0 <= MakeTime 10 0 0 0 < msPerDay)
      by (vm_compute; split; discriminate || reflexivity).
    destruct (Day_MakeDate monday (MakeTime 10 0 0 0) Hten) as [HD _].
    assert (HD0 : Day (MakeDate monday 0) = monday)
      by (apply Day_MakeDate; unfold msPerDay; lia).
    assert (HW : (monday + 4) mod 7 = 1)
      by (unfold monday; Z.div_mod_to_equations; lia).
    split; [unfold WeekDay; rewrite HD0; exact HW|].
    rewrite calculateNextRun_weekly. unfold weeklyAt, atLocalDay, getDay, WeekDay.
    rewrite LocalTime_UTC, HD, HW, UTC_ltb. cbn [Z.eqb Pos.eqb].
    replace (_ <? _) with false; [reflexivity|].
    symmetry. apply Z.ltb_ge. unfold MakeDate, msPerDay.
    vm_compute (MakeTime 10 0 0 0). vm_compute (MakeTime 9 0 0 0). lia.
  - rewrite calculateNextRun_weekly, weeklyAt_newDate.
    apply (f_equal UTC). vm_compute. reflexivity.
Qed.

End NextRunClaims.


(** The claim C3 as the specification states it, for a daily recurrence
    at another time: the expression for daily at 08:00, evaluated at
    2025-01-01T07:00:00, does not give 08:00 of that day but the
    fallback, 07:00 of the next day. *)
Lemma daily_at_8_counterexample :
  let now := @newDate ISTZone 2025 0 1 7 0 0 0 in
  cronDailyAt 8 0 = "0 8 * * *"%string /\
  @dailyAt ISTZone 8 0 now = @newDate ISTZone 2025 0 1 8 0 0 0 /\
  @Scheduler.calculateNextRun ISTZone (cronDailyAt 8 0) now
  = @newDate ISTZone 2025 0 2 7 0 0 0 /\
  @Scheduler.calculateNextRun ISTZone (cronDailyAt 8 0) now
  <> @dailyAt ISTZone 8 0 now.
Proof. vm_compute. repeat split; discriminate. Qed.

(** The claim C4 as the specification states it, for another weekday: the
    expression for Tuesday 09:00, evaluated on Monday 2025-01-06 at
    10:00, does not give Tuesday 09:00 but the fallback, Tuesday
    10:00. *)
Lemma weekly_at_tuesday_counterexample :
  let now := @newDate ISTZone 2025 0 6 10 0 0 0 in
  cronWeeklyAt 2 9 0 = "0 9 * * 2"%string /\
  @getDay ISTZone now = 1 /\
  @weeklyAt ISTZone 2 9 0 now = @newDate ISTZone 2025 0 7 9 0 0 0 /\
  @Scheduler.calculateNextRun ISTZone (cronWeeklyAt 2 9 0) now
  = @newDate ISTZone 2025 0 7 10 0 0 0 /\
  @Scheduler.calculateNextRun ISTZone (cronWeeklyAt 2 9 0) now
  <> @weeklyAt ISTZone 2 9 0 now.
Proof. vm_compute. repeat split; discriminate. Qed.

(** ** The scheduler's pass over the table *)

Section SchedulerFacts.
Context `{LocalZone}.
Import Scheduler.

Lemma lookup_id (k : Z) (tb : list reminder) (r : reminder) :
  lookup k tb = Some r -> id r = k /\ In r tb.
Proof.
  unfold lookup. intros Hf. apply find_some in Hf as [Hin Hk].
  split; [apply Z.eqb_eq; exact Hk | exact Hin].
Qed.

(** An update that keeps identifiers acts on the looked-up row and on
    no row with another identifier. *)
Lemma lookup_update (f : reminder -> reminder) (k k' : Z) (tb : list reminder) :
  (forall r, id (f r) = id r) ->
  lookup k' (map (fun r => if id r =? k then f r else r) tb)
  = if k' =? k then option_map f (lookup k' tb) else lookup k' tb.
Proof.
  intros Hid. unfold lookup. induction tb as [|x tb IH]; cbn [map find].
  - destruct (k' =? k); reflexivity.
  - destruct (Z.eqb_spec (id x) k) as [Ex|Nx].
    + rewrite Hid. destruct (Z.eqb_spec (id x) k') as [Ex'|Nx'].
      * replace (k' =? k) with true by (symmetry; apply Z.eqb_eq; lia).
        reflexivity.
      * exact IH.
    + destruct (Z.eqb_spec (id x) k') as [Ex'|Nx'].
      * replace (k' =? k) with false by (symmetry; apply Z.eqb_neq; lia).
        reflexivity.
      * exact IH.
Qed.

Lemma isDue_iff (now : Z) (r : reminder) :
  isDue now r = true <-> active r = true /\ next_run_at r <= now.
Proof.
  unfold isDue. rewrite andb_true_iff, Z.leb_le.
  destruct (active r); cbn; intuition congruence.
Qed.

Lemma fire_markFired (now : Z) (r : reminder) (w : world) :
  run (fire now r) w
  = run (markFired (id r) (outcome now r)) (run (emit (event_of r)) w).
Proof.
  unfold fire, outcome, markFired, run, bind, emit, event_of. cbn [snd].
  destruct ((schedule_cron r =? "once")%string
            || (schedule_cron r =? "custom")%string); reflexivity.
Qed.

Lemma table_markFired (k : Z) (o : option Z) (w : world) :
  table (run (markFired k o) w)
  = map (fun r => if id r =? k
                  then match o with
                       | Some t => set_next_run_at t r
                       | None => set_active false r
                       end
                  else r) (table w).
Proof. destruct o; reflexivity. Qed.

Lemma emitted_markFired (k : Z) (o : option Z) (w : world) :
  emitted (run (markFired k o) w) = emitted w.
Proof. destruct o; reflexivity. Qed.

Lemma outcome_settles (now : Z) (r : reminder) : settles now (outcome now r).
Proof.
  unfold outcome.
  destruct ((schedule_cron r =? "once")%string
            || (schedule_cron r =? "custom")%string); cbn; [exact I|].
  apply calculateNextRun_after.
Qed.

(** After [markFired] with a settled outcome no row with that
    identifier is due, and no row that was not due has become due. *)
Lemma markFired_not_due (now k : Z) (o : option Z) (w : world) :
  settles now o ->
  exists g,
    table (run (markFired k o) w) = map g (table w) /\
    forall x, id (g x) = id x /\
              (id x = k -> isDue now (g x) = false) /\
              (isDue now x = false -> isDue now (g x) = false).
Proof.
  intros Hs. eexists. split; [apply table_markFired|].
  intros x. cbv beta.
  destruct (Z.eqb_spec (id x) k) as [E|N].
  - assert (Hnd : isDue now match o with
                             | Some t => set_next_run_at t x
                             | None => set_active false x
                             end = false).
    { destruct o as [t|]; unfold isDue; cbn in *.
      - apply andb_false_iff. right. apply Z.leb_gt. exact Hs.
      - reflexivity. }
    split; [destruct o; reflexivity|]. split; intros _; exact Hnd.
  - split; [reflexivity|]. split; [intros E; contradiction|auto].
Qed.

(** The loop over a list of reminders leaves none of their rows due. *)
Lemma for_of_fire_not_due (now : Z) (l : list reminder) (w : world) :
  exists g,
    table (run (for_of l (fire now)) w) = map g (table w) /\
    forall x, id (g x) = id x /\
              (In (id x) (map id l) -> isDue now (g x) = false) /\
              (isDue now x = false -> isDue now (g x) = false).
Proof.
  revert w. induction l as [|r l IH]; intros w.
  - exists (fun x => x). split; [symmetry; apply map_id|].
    intros x. split; [reflexivity|]. split; [intros []|auto].
  - assert (Hstep : run (for_of (r :: l) (fire now)) w
                    = run (for_of l (fire now)) (run (fire now r) w)).
    { unfold run. cbn [for_of]. unfold bind.
      destruct (fire now r w) as [[] w1]. reflexivity. }
    rewrite Hstep.
    destruct (IH (run (fire now r) w)) as (g2 & Htb2 & Hg2).
    rewrite fire_markFired in Htb2 |- *.
    destruct (markFired_not_due now (id r) (outcome now r)
                (run (emit (event_of r)) w) (outcome_settles now r))
      as (g1 & Htb1 & Hg1).
    exists (fun x => g2 (g1 x)). split.
    + rewrite Htb2, Htb1, map_map. reflexivity.
    + intros x. destruct (Hg1 x) as (I1 & K1 & N1).
      destruct (Hg2 (g1 x)) as (I2 & K2 & N2).
      split; [congruence|]. split.
      * cbn [map In]. intros [E|Hin].
        -- apply N2, K1. congruence.
        -- apply K2. rewrite I1. exact Hin.
      * intros Hx. apply N2, N1, Hx.
Qed.

Lemma tick_leaves_nothing_due (now : Z) (w : world) :
  result (listDue now) (run (tick now) w) = [].
Proof.
  unfold tick, listDue, selectDue, select_where, result, run, bind. cbn [fst snd].
  destruct (for_of_fire_not_due now (filter (isDue now) (table w)) w)
    as (g & Htb & Hg).
  unfold run in Htb. rewrite Htb.
  induction (table w) as [|x tb IH] in Hg |- *; [reflexivity|].
  cbn [map filter].
  replace (isDue now (g x)) with false; [apply IH|].
  - intros y. destruct (Hg y) as (I1 & K1 & N1). repeat split; auto.
    intros Hin. apply K1. cbn [filter].
    destruct (isDue now x); [right|]; exact Hin.
  - symmetry. destruct (Hg x) as (I1 & K1 & N1).
    destruct (isDue now x) eqn:Ex; [|apply N1; reflexivity].
    apply K1. cbn [filter]. rewrite Ex. left. reflexivity.
Qed.

(** The events of a pass: one per due reminder, in the order of the
    selection. *)
Lemma for_of_fire_emitted (now : Z) (l : list reminder) (w : world) :
  emitted (run (for_of l (fire now)) w) = (emitted w ++ map event_of l)%list.
Proof.
  revert w. induction l as [|r l IH]; intros w.
  - cbn. rewrite app_nil_r. reflexivity.
  - assert (Hstep : run (for_of (r :: l) (fire now)) w
                    = run (for_of l (fire now)) (run (fire now r) w)).
    { unfold run. cbn [for_of]. unfold bind.
      destruct (fire now r w) as [[] w1]. reflexivity. }
    rewrite Hstep, IH, fire_markFired, emitted_markFired. cbn [map].
    unfold run, emit. cbn [snd emitted]. rewrite <- app_assoc. reflexivity.
Qed.

(** C6.  For an item [r] of the store with identifier [k]:
    [markFired k (Some t)] makes its [next_run_at] equal to [t] and
    leaves [active] as it was (true stays true); [markFired k None]
    makes [active] false and leaves [next_run_at] as it was; items with
    another identifier and the emitted events are untouched.  Hence a
    reminder whose recurrence is "once" is, after the scheduler has
    fired it, inactive with its [next_run_at] unchanged. *)
Theorem markFired_effect (w : world) (k : Z) (r : reminder) (t now : Z) :
  lookup k (table w) = Some r ->
  let advanced := run (markFired k (Some t)) w in
  let stopped := run (markFired k None) w in
  lookup k (table advanced) = Some (set_next_run_at t r) /\
  next_run_at (set_next_run_at t r) = t /\
  active (set_next_run_at t r) = active r /\
  lookup k (table stopped) = Some (set_active false r) /\
  active (set_active false r) = false /\
  next_run_at (set_active false r) = next_run_at r /\
  (forall k', k' <> k ->
     lookup k' (table advanced) = lookup k' (table w) /\
     lookup k' (table stopped) = lookup k' (table w)) /\
  emitted advanced = emitted w /\ emitted stopped = emitted w /\
  (schedule_cron r = "once"%string ->
     lookup k (table (run (fire now r) w)) = Some (set_active false r)).
Proof.
  intros Hr advanced stopped.
  assert (Hk : id r = k) by (apply (lookup_id k (table w) r Hr)).
  unfold advanced, stopped. rewrite !table_markFired.
  rewrite !lookup_update by reflexivity.
  rewrite Z.eqb_refl, Hr. cbn [option_map].
  repeat split.
  - rewrite lookup_update by reflexivity.
    replace (k' =? k) with false by (symmetry; apply Z.eqb_neq; assumption).
    reflexivity.
  - rewrite lookup_update by reflexivity.
    replace (k' =? k) with false by (symmetry; apply Z.eqb_neq; assumption).
    reflexivity.
  - intros Honce. rewrite fire_markFired. unfold outcome. rewrite Honce.
    cbn [String.eqb Ascii.eqb Bool.eqb orb].
    rewrite table_markFired, lookup_update by reflexivity.
    rewrite Hk, Z.eqb_refl. cbn [run emit snd table]. rewrite Hr. reflexivity.
Qed.

(** C7.  [listDue asOf] returns exactly the items that are active and
    whose [next_run_at] is at most [asOf], and leaves the store as it
    is: an item whose [next_run_at] equals [asOf] is returned, an
    inactive item never is. *)
Theorem listDue_exact (w : world) (asOf : Z) :
  let due := result (listDue asOf) w in
  (forall r, In r due <->
             In r (table w) /\ active r = true /\ next_run_at r <= asOf) /\
  (forall r, In r (table w) -> active r = true -> next_run_at r = asOf ->
             In r due) /\
  (forall r, active r = false -> ~ In r due) /\
  run (listDue asOf) w = w.
Proof.
  intros due.
  assert (Hiff : forall r, In r due <->
             In r (table w) /\ active r = true /\ next_run_at r <= asOf).
  { intros r. unfold due, listDue, selectDue, select_where, result. cbn [fst].
    rewrite filter_In, isDue_iff. reflexivity. }
  split; [exact Hiff|]. split; [|split].
  - intros r Hin Ha Ht. apply Hiff. repeat split; auto. lia.
  - intros r Ha Hin. apply Hiff in Hin as (_ & Ha' & _). congruence.
  - reflexivity.
Qed.

End SchedulerFacts.

Lemma markFired_effect_witness :
  let r := {| Scheduler.id := 7; Scheduler.user_id := 1;
              Scheduler.title := "Take morning medication";
              Scheduler.type := "medication";
              Scheduler.schedule_cron := "once";
              Scheduler.next_run_at := 1000; Scheduler.active := true |} in
  let w := {| Scheduler.table := [r]; Scheduler.emitted := [] |} in
  Scheduler.lookup 7 (Scheduler.table w) = Some r /\
  Scheduler.lookup 7
    (Scheduler.table (Scheduler.run (@Scheduler.fire UTCZone 2000 r) w))
  = Some (Scheduler.set_active false r).
Proof.
  intros r w.
  assert (Hr : Scheduler.lookup 7 (Scheduler.table w) = Some r) by reflexivity.
  split; [exact Hr|].
  apply (@markFired_effect UTCZone w 7 r 5000 2000 Hr). reflexivity.
Defined.

(** ** Object signatures *)

Section ObjectDetectionFacts.
Import ObjectDetection.
Local Open Scope Q_scope.

(** *** [includes] and [Set] *)

Lemma includes_In (l : list string) (x : string) :
  includes l x = true <-> In x l.
Proof.
  unfold includes. rewrite existsb_exists. split.
  - intros (y & Hin & Heq). apply String.eqb_eq in Heq. subst. exact Hin.
  - intros Hin. exists x. split; [exact Hin | apply String.eqb_refl].
Qed.

Lemma Set_of_In (l : list string) (x : string) : In x (Set_of l) <-> In x l.
Proof.
  induction l as [|a l IH]; cbn [Set_of In]; [reflexivity|].
  rewrite filter_In, IH, negb_true_iff, String.eqb_neq.
  destruct (string_dec a x); intuition congruence.
Qed.

Lemma Set_of_NoDup (l : list string) : NoDup (Set_of l).
Proof.
  induction l as [|a l IH]; cbn [Set_of]; constructor.
  - rewrite filter_In, negb_true_iff, String.eqb_neq. intros [_ Hne]. congruence.
  - apply NoDup_filter, IH.
Qed.

Lemma Set_size_same (l l' : list string) :
  (forall x, In x l <-> In x l') -> Set_size l = Set_size l'.
Proof.
  intros Hsame. unfold Set_size. f_equal.
  apply Permutation_length, NoDup_Permutation; try apply Set_of_NoDup.
  intros x. rewrite !Set_of_In. apply Hsame.
Qed.

Lemma Set_size_zero (l : list string) : Set_size l = 0%Z <-> l = [].
Proof.
  unfold Set_size. destruct l as [|a l]; cbn [Set_of List.length].
  - split; reflexivity.
  - split; [lia | discriminate].
Qed.

(** The strings two duplicate-free lists share are counted alike from
    either side, and there are no more of them than distinct strings in
    both lists together. *)
Lemma shared_length_sym (l1 l2 : list string) :
  NoDup l1 -> NoDup l2 ->
  List.length (filter (includes l2) l1) = List.length (filter (includes l1) l2).
Proof.
  intros H1 H2.
  apply Permutation_length, NoDup_Permutation; try (apply NoDup_filter; assumption).
  intros x. rewrite !filter_In, !includes_In. tauto.
Qed.

Lemma shared_le_total (l1 l2 : list string) :
  NoDup l1 ->
  (Z.of_nat (List.length (filter (includes l2) l1)) <= Set_size (l1 ++ l2))%Z.
Proof.
  intros H1. unfold Set_size. apply inj_le, NoDup_incl_length.
  - apply NoDup_filter, H1.
  - intros x Hx. apply filter_In in Hx as [Hx _].
    apply Set_of_In, in_or_app. left. exact Hx.
Qed.

(** *** The arithmetic of the score *)

Lemma Math_abs_spec (x : Q) : 0 <= Math_abs x /\ (Math_abs x == x \/ Math_abs x == - x).
Proof.
  unfold Math_abs. destruct (Qle_bool 0 x) eqn:E.
  - apply Qle_bool_iff in E. split; [exact E | left; reflexivity].
  - assert (~ 0 <= x) by (rewrite <- Qle_bool_iff; congruence).
    split; [lra | right; reflexivity].
Qed.

Lemma Math_abs_sub_sym (x y : Q) : Math_abs (x - y) == Math_abs (y - x).
Proof.
  unfold Math_abs.
  destruct (Qle_bool 0 (x - y)) eqn:E1; destruct (Qle_bool 0 (y - x)) eqn:E2;
    try apply Qle_bool_iff in E1; try apply Qle_bool_iff in E2;
    try (assert (~ 0 <= x - y) by (rewrite <- Qle_bool_iff; congruence));
    try (assert (~ 0 <= y - x) by (rewrite <- Qle_bool_iff; congruence));
    lra.
Qed.

Lemma Math_max2_spec (x y : Q) :
  x <= Math_max2 x y /\ y <= Math_max2 x y /\
  (Math_max2 x y == x \/ Math_max2 x y == y).
Proof.
  unfold Math_max2. destruct (Qle_bool x y) eqn:E.
  - apply Qle_bool_iff in E. repeat split; lra.
  - assert (~ x <= y) by (rewrite <- Qle_bool_iff; congruence).
    repeat split; lra.
Qed.

Lemma Math_max3_sym (x y z : Q) : Math_max3 x y z == Math_max3 y x z.
Proof.
  unfold Math_max3.
  destruct (Math_max2_spec x y) as (A1 & A2 & A3).
  destruct (Math_max2_spec y x) as (B1 & B2 & B3).
  destruct (Math_max2_spec (Math_max2 x y) z) as (C1 & C2 & C3).
  destruct (Math_max2_spec (Math_max2 y x) z) as (D1 & D2 & D3).
  destruct A3, B3, C3, D3; lra.
Qed.

Lemma countSimilarity_range (c1 c2 : Q) :
  0 <= c1 -> 0 <= c2 ->
  0 <= Math_abs (c1 - c2) / Math_max3 c1 c2 1 <= 1.
Proof.
  intros H1 H2.
  destruct (Math_abs_spec (c1 - c2)) as (A0 & A1).
  unfold Math_max3.
  destruct (Math_max2_spec c1 c2) as (M1 & M2 & _).
  destruct (Math_max2_spec (Math_max2 c1 c2) 1) as (N1 & N2 & _).
  set (mx := Math_max2 (Math_max2 c1 c2) 1) in *.
  assert (Hpos : 0 < mx) by lra.
  split.
  - apply Qle_shift_div_l; [exact Hpos | lra].
  - apply Qle_shift_div_r; [exact Hpos | destruct A1; lra].
Qed.

Lemma objectSimilarity_range (s t : Z) :
  (0 <= s <= t)%Z -> (t <> 0)%Z -> 0 <= inject_Z s / inject_Z t <= 1.
Proof.
  intros Hs Ht.
  assert (Hpos : 0 < inject_Z t) by (change 0 with (inject_Z 0); rewrite <- Zlt_Qlt; lia).
  assert (H0 : 0 <= inject_Z s) by (change 0 with (inject_Z 0); rewrite <- Zle_Qle; lia).
  assert (H1 : inject_Z s <= inject_Z t) by (rewrite <- Zle_Qle; lia).
  split.
  - apply Qle_shift_div_l; [exact Hpos | lra].
  - apply Qle_shift_div_r; [exact Hpos | lra].
Qed.

(** C10.  For signatures whose [dominantObjects] lists are free of
    duplicates and whose [objectCount]s are not negative,
    [calculateSimilarity] is between 0 and 1 and does not depend on
    the order of its two arguments; it is 0 when both
    [dominantObjects] lists are empty. *)
Theorem calculateSimilarity_range_sym (sig1 sig2 : ObjectSignature) :
  NoDup (dominantObjects sig1) ->
  NoDup (dominantObjects sig2) ->
  0 <= objectCount sig1 ->
  0 <= objectCount sig2 ->
  0 <= calculateSimilarity sig1 sig2 <= 1 /\
  calculateSimilarity sig1 sig2 == calculateSimilarity sig2 sig1 /\
  (dominantObjects sig1 = [] -> dominantObjects sig2 = [] ->
   calculateSimilarity sig1 sig2 = 0).
Proof.
  intros N1 N2 C1 C2. split; [|split].
  - unfold calculateSimilarity.
    destruct (Z.eqb_spec (Set_size (dominantObjects sig1 ++ dominantObjects sig2)) 0)
      as [E|N]; [lra|].
    pose proof (countSimilarity_range _ _ C1 C2) as Hu.
    pose proof (objectSimilarity_range _ _
                  (conj (Nat2Z.is_nonneg _) (shared_le_total _ (dominantObjects sig2) N1)) N)
      as Hx.
    change (fun obj => includes (dominantObjects sig2) obj)
      with (includes (dominantObjects sig2)).
    revert Hu Hx.
    generalize (Math_abs (objectCount sig1 - objectCount sig2)
                / Math_max3 (objectCount sig1) (objectCount sig2) 1).
    generalize (inject_Z (Z.of_nat (List.length
                  (filter (includes (dominantObjects sig2))
                          (dominantObjects sig1))))
                / inject_Z (Set_size (dominantObjects sig1 ++ dominantObjects sig2))).
    intros x u Hu Hx. lra.
  - unfold calculateSimilarity.
    rewrite (Set_size_same (dominantObjects sig2 ++ dominantObjects sig1)
                           (dominantObjects sig1 ++ dominantObjects sig2))
      by (intros x; rewrite !in_app_iff; tauto).
    destruct (Set_size (dominantObjects sig1 ++ dominantObjects sig2) =? 0)%Z;
      [reflexivity|].
    change (fun obj => includes (dominantObjects sig2) obj)
      with (includes (dominantObjects sig2)).
    change (fun obj => includes (dominantObjects sig1) obj)
      with (includes (dominantObjects sig1)).
    rewrite (shared_length_sym _ _ N1 N2).
    rewrite (Math_abs_sub_sym (objectCount sig1) (objectCount sig2)).
    rewrite (Math_max3_sym (objectCount sig1) (objectCount sig2) 1).
    reflexivity.
  - intros E1 E2. unfold calculateSimilarity. rewrite E1, E2. reflexivity.
Qed.
End ObjectDetectionFacts.

Lemma calculateSimilarity_range_sym_witness :
  let sig1 := {| ObjectDetection.objects := [];
                 ObjectDetection.dominantObjects := ["cup"; "bottle"; "chair"]%string;
                 ObjectDetection.objectCount := 3 |} in
  let sig2 := {| ObjectDetection.objects := [];
                 ObjectDetection.dominantObjects := ["bottle"; "cup"; "tv"]%string;
                 ObjectDetection.objectCount := 4 |} in
  (0 <= ObjectDetection.calculateSimilarity sig1 sig2 <= 1)%Q /\
  (ObjectDetection.calculateSimilarity sig1 sig2
   == ObjectDetection.calculateSimilarity sig2 sig1)%Q.
Proof.
  intros sig1 sig2.
  assert (N1 : NoDup (ObjectDetection.dominantObjects sig1)).
  { cbn. repeat constructor; cbn; intuition discriminate. }
  assert (N2 : NoDup (ObjectDetection.dominantObjects sig2)).
  { cbn. repeat constructor; cbn; intuition discriminate. }
  assert (C1 : (0 <= ObjectDetection.objectCount sig1)%Q) by (cbn; unfold Qle; cbn; lia).
  assert (C2 : (0 <= ObjectDetection.objectCount sig2)%Q) by (cbn; unfold Qle; cbn; lia).
  destruct (calculateSimilarity_range_sym sig1 sig2 N1 N2 C1 C2) as (Hr & Hs & _).
  split; [exact Hr | exact Hs].
Defined.

Section FindMatchesFacts.
Import ObjectDetection.
Local Open Scope Q_scope.

Lemma insert_Permutation {A} (cmp : A -> A -> Q) (a : A) (l : list A) :
  Permutation (insert cmp a l) (a :: l).
Proof.
  induction l as [|b l IH]; cbn [insert]; [reflexivity|].
  destruct (Qle_bool (cmp a b) 0); [reflexivity|].
  rewrite IH. apply perm_swap.
Qed.

Lemma sort_Permutation {A} (cmp : A -> A -> Q) (l : list A) :
  Permutation (sort cmp l) l.
Proof.
  unfold sort. induction l as [|a l IH]; cbn [fold_right]; [reflexivity|].
  rewrite insert_Permutation. constructor. exact IH.
Qed.

Lemma insert_sorted (a : Match) (l : list Match) :
  StronglySorted notBelow l -> StronglySorted notBelow (insert byConfidence a l).
Proof.
  induction 1 as [|b l Hs IH Hb]; cbn [insert].
  - repeat constructor.
  - destruct (Qle_bool (byConfidence a b) 0) eqn:E.
    + apply Qle_bool_iff in E. unfold byConfidence in E.
      assert (Hab : notBelow a b) by (unfold notBelow; lra).
      constructor; [constructor; assumption|].
      constructor; [exact Hab|].
      eapply Forall_impl; [|exact Hb]. unfold notBelow in *. intros c Hc. lra.
    + assert (Hba : notBelow b a).
      { assert (~ byConfidence a b <= 0) by (rewrite <- Qle_bool_iff; congruence).
        unfold byConfidence, notBelow in *. lra. }
      constructor; [exact IH|].
      eapply Permutation_Forall; [symmetry; apply insert_Permutation|].
      constructor; assumption.
Qed.

Lemma sort_sorted (l : list Match) : StronglySorted notBelow (sort byConfidence l).
Proof.
  unfold sort. induction l as [|a l IH]; cbn [fold_right].
  - constructor.
  - apply insert_sorted, IH.
Qed.

Lemma firstn_In {A} (n : nat) (l : list A) (x : A) :
  In x (firstn n l) -> In x l.
Proof.
  intros Hx. rewrite <- (firstn_skipn n l). apply in_or_app. left. exact Hx.
Qed.

Lemma firstn_sorted {A} (R : A -> A -> Prop) (n : nat) (l : list A) :
  StronglySorted R l -> StronglySorted R (firstn n l).
Proof.
  intros Hs. revert n. induction Hs as [|a l Hs IH Ha]; intros [|n]; cbn [firstn];
    try constructor.
  - apply IH.
  - apply Forall_forall. intros x Hx.
    rewrite Forall_forall in Ha. apply Ha. eapply firstn_In; exact Hx.
Qed.

(** C9.  [findMatches] returns at most three matches; each has a
    confidence of at least 0.9 and is the score of one of the stored
    signatures, under that signature's identifier and tag; the matches
    come in nonincreasing order of confidence. *)
Theorem findMatches_top3 (newSignature : ObjectSignature)
        (storedSignatures : list StoredSignature) :
  let matches := findMatches newSignature storedSignatures in
  (List.length matches <= 3)%nat /\
  Forall (fun m => 9 # 10 <= confidence m) matches /\
  StronglySorted (fun a b => confidence b <= confidence a) matches /\
  Forall (fun m => exists stored,
              In stored storedSignatures /\
              m_id m = id stored /\ m_userTag m = userTag stored /\
              confidence m = calculateSimilarity newSignature (signature stored))
         matches.
Proof.
  intros matches. unfold matches, findMatches, slice0.
  set (mapped := map _ storedSignatures).
  set (kept := filter _ mapped).
  assert (Hin : forall m, In m (firstn 3 (sort byConfidence kept)) -> In m kept).
  { intros m Hm. apply firstn_In in Hm.
    eapply Permutation_in; [apply sort_Permutation | exact Hm]. }
  split; [apply firstn_le_length|].
  split; [|split].
  - apply Forall_forall. intros m Hm. apply Hin in Hm.
    unfold kept in Hm. apply filter_In in Hm as [_ Hc].
    apply Qle_bool_iff. exact Hc.
  - apply firstn_sorted. apply sort_sorted.
  - apply Forall_forall. intros m Hm. apply Hin in Hm.
    unfold kept in Hm. apply filter_In in Hm as [Hm _].
    unfold mapped in Hm. apply in_map_iff in Hm as (stored & <- & Hs).
    exists stored. repeat split. exact Hs.
Qed.
End FindMatchesFacts.

(* ================================================================== *)
(** * Part III: further properties of the modelled code               *)
(* ================================================================== *)

(** ** The scheduler's pass as a whole *)

Section TickFacts.
Context `{LocalZone}.
Import Scheduler.

Lemma run_tick (now : Z) (w : world) :
  run (tick now) w = run (for_of (result (listDue now) w) (fire now)) w.
Proof. reflexivity. Qed.

Lemma table_fire (now : Z) (r : reminder) (w : world) :
  table (run (fire now r) w)
  = map (fun x => if id x =? id r then written (outcome now r) x else x) (table w).
Proof. rewrite fire_markFired, table_markFired. reflexivity. Qed.

Lemma run_for_of_cons (now : Z) (r : reminder) (l : list reminder) (w : world) :
  run (for_of (r :: l) (fire now)) w
  = run (for_of l (fire now)) (run (fire now r) w).
Proof.
  unfold run. cbn [for_of]. unfold bind.
  destruct (fire now r w) as [[] w1]. reflexivity.
Qed.

Lemma written_fields (o : option Z) (x : reminder) :
  id (written o x) = id x /\ user_id (written o x) = user_id x /\
  title (written o x) = title x /\ type (written o x) = type x /\
  schedule_cron (written o x) = schedule_cron x.
Proof. destruct o; repeat split. Qed.


(** The loop changes nothing but [next_run_at] and [active], and only in
    rows that carry the identifier of a fired reminder. *)
Lemma for_of_fire_frame (now : Z) (l : list reminder) (w : world) :
  Forall2 (fun x x' =>
             id x' = id x /\ user_id x' = user_id x /\ title x' = title x /\
             type x' = type x /\ schedule_cron x' = schedule_cron x /\
             (~ In (id x) (map id l) -> x' = x))
          (table w) (table (run (for_of l (fire now)) w)).
Proof.
  revert w. induction l as [|r l IH]; intros w.
  - cbn. induction (table w); constructor; auto. repeat split.
  - rewrite run_for_of_cons.
    specialize (IH (run (fire now r) w)). rewrite table_fire in IH.
    remember (table (run (for_of l (fire now)) (run (fire now r) w))) as tb2 eqn:E.
    clear E. revert tb2 IH.
    induction (table w) as [|x tb IHtb]; intros tb2 IH; cbn [map] in IH;
      inversion IH as [|x1 x2 l1 l2 Hx Hrest]; subst; constructor.
    + destruct Hx as (I & U & T & Y & S & F).
      destruct (written_fields (outcome now r) x) as (I1 & U1 & T1 & Y1 & S1).
      destruct (Z.eqb_spec (id x) (id r)) as [E|N].
      * repeat split; try congruence.
        intros Hn. exfalso. apply Hn. left. congruence.
      * repeat split; try assumption.
        intros Hn. apply F. intros Hin. apply Hn. right. exact Hin.
    + apply IHtb. exact Hrest.
Qed.

(** X2.  One pass neither adds nor removes nor reorders rows, and keeps
    every row's id, user, title, type and recurrence expression; a row
    whose identifier is not that of a due reminder is left exactly as it
    was. *)
Theorem tick_frame (now : Z) (w : world) :
  Forall2 (fun x x' =>
             id x' = id x /\ user_id x' = user_id x /\ title x' = title x /\
             type x' = type x /\ schedule_cron x' = schedule_cron x /\
             (~ In (id x) (map id (result (listDue now) w)) -> x' = x))
          (table w) (table (run (tick now) w)).
Proof. rewrite run_tick. apply for_of_fire_frame. Qed.

(** Selecting rows keeps their identifiers distinct. *)
Lemma unique_ids_filter (keep : reminder -> bool) (tb : list reminder) :
  NoDup (map id tb) -> NoDup (map id (filter keep tb)).
Proof.
  intros Hn. induction tb as [|a tb IH]; cbn [map filter] in *; [constructor|].
  inversion Hn as [|? ? Hnin Hn']; subst.
  destruct (keep a); cbn [map]; [constructor|]; auto.
  intros Hin. apply Hnin. apply in_map_iff in Hin as (y & Ey & Hy).
  apply filter_In in Hy as [Hy _]. apply in_map_iff. exists y. auto.
Qed.

Lemma NoDup_map_eq {A B} (f : A -> B) (l : list A) (x y : A) :
  NoDup (map f l) -> In x l -> In y l -> f x = f y -> x = y.
Proof.
  induction l as [|a l IH]; cbn [map]; intros Hn Hx Hy E; [destruct Hx|].
  inversion Hn as [|? ? Hnin Hn']; subst.
  destruct Hx as [->|Hx], Hy as [->|Hy]; auto.
  - exfalso. apply Hnin. rewrite E. apply in_map. exact Hy.
  - exfalso. apply Hnin. rewrite <- E. apply in_map. exact Hx.
Qed.

(** The loop over reminders with distinct identifiers writes to every
    row the outcome of the reminder that carries its identifier. *)
Lemma for_of_fire_table (now : Z) (l : list reminder) (w : world) :
  NoDup (map id l) ->
  table (run (for_of l (fire now)) w)
  = map (fun x => match lookup (id x) l with
                  | Some r => written (outcome now r) x
                  | None => x
                  end) (table w).
Proof.
  revert w. induction l as [|r l IH]; intros w Hn.
  - cbn. symmetry. apply map_id.
  - inversion Hn as [|? ? Hnin Hn']; subst.
    rewrite run_for_of_cons, IH by assumption.
    rewrite table_fire, map_map. apply map_ext. intros x.
    unfold lookup. cbn [find]. rewrite (Z.eqb_sym (id r) (id x)).
    destruct (Z.eqb_spec (id x) (id r)) as [E|N].
    + destruct (written_fields (outcome now r) x) as (I1 & _). rewrite I1.
      destruct (find (fun r0 => id r0 =? id x) l) as [r'|] eqn:F; [|reflexivity].
      exfalso. apply find_some in F as [Hin Hk]. apply Z.eqb_eq in Hk.
      apply Hnin. apply in_map_iff. exists r'. split; [congruence|exact Hin].
    + reflexivity.
Qed.


End TickFacts.


(** ** The recurrence arithmetic over time *)

Section CadenceFacts.
Context `{LocalZone}.
Import Scheduler Reminders.

Lemma startOfNextHour_mono (now now' : Z) :
  now <= now' -> startOfNextHour now <= startOfNextHour now'.
Proof.
  intros Hle. unfold startOfNextHour, UTC, LocalTime, msPerHour.
  Z.div_mod_to_equations. lia.
Qed.

Lemma dailyAt_mono (now now' : Z) :
  now <= now' -> dailyAt 9 0 now <= dailyAt 9 0 now'.
Proof.
  intros Hle. unfold dailyAt, atLocalDay, MakeDate, UTC.
  pose proof (Day_TimeWithinDay (LocalTime now)) as [Hn Hw].
  pose proof (Day_TimeWithinDay (LocalTime now')) as [Hn' Hw'].
  pose proof nine_in_day as H9.
  revert Hn Hw Hn' Hw' H9.
  generalize (MakeTime 9 0 0 0) (Day (LocalTime now)) (Day (LocalTime now'))
             (TimeWithinDay (LocalTime now)) (TimeWithinDay (LocalTime now')).
  unfold LocalTime, msPerDay. intros T D D' v v' Hn Hw Hn' Hw' H9.
  destruct (Z.ltb_spec now ((D + 0) * 86400000 + T - LocalTZA)),
           (Z.ltb_spec now' ((D' + 0) * 86400000 + T - LocalTZA)); lia.
Qed.

Lemma weeklyAt_mono (now now' : Z) :
  now <= now' -> weeklyAt 1 9 0 now <= weeklyAt 1 9 0 now'.
Proof.
  intros Hle.
  assert (Hwd : 0 <= 1 < 7) by lia.
  destruct (weeklyAt_nextOccurrence 1 9 0 now Hwd nine_in_day) as (_ & _ & Hmin).
  destruct (weeklyAt_nextOccurrence 1 9 0 now' Hwd nine_in_day) as (Hocc & Hlt & _).
  apply Hmin; [exact Hocc | lia].
Qed.


(** A reference time between a run of a known expression and the end of
    the period that starts with it yields the run one period later. *)
Lemma hourly_cadence (t now : Z) :
  startOfNextHour t <= now < startOfNextHour t + msPerHour ->
  startOfNextHour now = startOfNextHour t + msPerHour.
Proof.
  unfold startOfNextHour, UTC, LocalTime, msPerHour.
  intros Hr. Z.div_mod_to_equations. lia.
Qed.

Lemma daily_cadence (t now : Z) :
  dailyAt 9 0 t <= now < dailyAt 9 0 t + msPerDay ->
  dailyAt 9 0 now = dailyAt 9 0 t + msPerDay.
Proof.
  unfold dailyAt, atLocalDay, MakeDate, UTC.
  pose proof (Day_TimeWithinDay (LocalTime t)) as [Hn Hw].
  pose proof (Day_TimeWithinDay (LocalTime now)) as [Hn' Hw'].
  pose proof nine_in_day as H9.
  revert Hn Hw Hn' Hw' H9.
  generalize (MakeTime 9 0 0 0) (Day (LocalTime t)) (Day (LocalTime now))
             (TimeWithinDay (LocalTime t)) (TimeWithinDay (LocalTime now)).
  unfold LocalTime, msPerDay. intros T D D' v v' Hn Hw Hn' Hw' H9.
  destruct (Z.ltb_spec t ((D + 0) * 86400000 + T - LocalTZA)),
           (Z.ltb_spec now ((D' + 0) * 86400000 + T - LocalTZA)); lia.
Qed.

Lemma weekly_cadence (t now : Z) :
  weeklyAt 1 9 0 t <= now < weeklyAt 1 9 0 t + 7 * msPerDay ->
  weeklyAt 1 9 0 now = weeklyAt 1 9 0 t + 7 * msPerDay.
Proof.
  intros Hr.
  assert (Hwd : 0 <= 1 < 7) by lia.
  destruct (weeklyAt_nextOccurrence 1 9 0 t Hwd nine_in_day)
    as ((Ed & Et) & _ & _).
  destruct (weeklyAt_nextOccurrence 1 9 0 now Hwd nine_in_day)
    as ((Ed' & Et') & Hlt' & Hmin').
  set (r := weeklyAt 1 9 0 t) in *. set (r' := weeklyAt 1 9 0 now) in *.
  assert (Hocc : occursAt 1 9 0 (r + 7 * msPerDay)).
  { split.
    - unfold getDay, WeekDay, Day, LocalTime, msPerDay in *.
      Z.div_mod_to_equations. lia.
    - unfold TimeWithinDay, LocalTime, msPerDay in *.
      rewrite <- Et. Z.div_mod_to_equations. lia. }
  assert (Hle : r' <= r + 7 * msPerDay) by (apply Hmin'; [exact Hocc | lia]).
  pose proof (Day_TimeWithinDay (LocalTime r)) as [Hd _].
  pose proof (Day_TimeWithinDay (LocalTime r')) as [Hd' _].
  rewrite Et in Hd. rewrite Et' in Hd'.
  unfold getDay, WeekDay in Ed, Ed'.
  revert Hd Hd' Ed Ed' Hle Hlt' Hr.
  generalize (MakeTime 9 0 0 0) (Day (LocalTime r)) (Day (LocalTime r')).
  unfold LocalTime, msPerDay. intros T D D' Hd Hd' Ed Ed' Hle Hlt' Hr.
  Z.div_mod_to_equations. lia.
Qed.



End CadenceFacts.




(** ** Signatures and matches *)

Section SignatureFacts.
Import ObjectDetection.
Local Open Scope Q_scope.

Lemma findMatches_candidates (newSignature : ObjectSignature)
      (storedSignatures : list StoredSignature) :
  findMatches newSignature storedSignatures
  = firstn 3 (sort byConfidence (candidates newSignature storedSignatures)).
Proof. reflexivity. Qed.

Lemma candidates_In (newSignature : ObjectSignature)
      (storedSignatures : list StoredSignature) (m : Match) :
  In m (candidates newSignature storedSignatures) ->
  9 # 10 <= confidence m /\
  exists stored, In stored storedSignatures /\
                 m_id m = id stored /\ m_userTag m = userTag stored /\
                 confidence m = calculateSimilarity newSignature (signature stored).
Proof.
  unfold candidates. intros Hm. apply filter_In in Hm as [Hm Hc].
  split; [apply Qle_bool_iff; exact Hc|].
  apply in_map_iff in Hm as (stored & <- & Hs). exists stored. repeat split. exact Hs.
Qed.

Lemma findMatches_In (newSignature : ObjectSignature)
      (storedSignatures : list StoredSignature) (m : Match) :
  In m (findMatches newSignature storedSignatures) ->
  In m (candidates newSignature storedSignatures).
Proof.
  rewrite findMatches_candidates. intros Hm. apply firstn_In in Hm.
  eapply Permutation_in; [apply sort_Permutation | exact Hm].
Qed.

(** *** Sorting by score, as [createObjectSignature] does *)

Lemma insert_byScore_sorted (a : DetectedObject) (l : list DetectedObject) :
  StronglySorted (fun x y => score y <= score x) l ->
  StronglySorted (fun x y => score y <= score x) (insert byScore a l).
Proof.
  induction 1 as [|b l Hs IH Hb]; cbn [insert].
  - repeat constructor.
  - destruct (Qle_bool (byScore a b) 0) eqn:E.
    + apply Qle_bool_iff in E. unfold byScore in E.
      constructor; [constructor; assumption|].
      constructor; [lra|].
      eapply Forall_impl; [|exact Hb]. cbv beta. intros c Hc. lra.
    + assert (~ byScore a b <= 0) by (rewrite <- Qle_bool_iff; congruence).
      unfold byScore in *.
      constructor; [exact IH|].
      eapply Permutation_Forall; [symmetry; apply insert_Permutation|].
      constructor; [lra | assumption].
Qed.

Lemma sort_byScore_sorted (l : list DetectedObject) :
  StronglySorted (fun x y => score y <= score x) (sort byScore l).
Proof.
  unfold sort. induction l as [|a l IH]; cbn [fold_right].
  - constructor.
  - apply insert_byScore_sorted, IH.
Qed.

Lemma sorted_split {A} (R : A -> A -> Prop) (n : nat) (l : list A) :
  StronglySorted R l ->
  forall a b, In a (firstn n l) -> In b (skipn n l) -> R a b.
Proof.
  intros Hs. revert n. induction Hs as [|x l Hs IH Hx]; intros n a b Ha Hb.
  - rewrite firstn_nil in Ha. destruct Ha.
  - destruct n as [|n]; cbn [firstn skipn] in *; [destruct Ha|].
    destruct Ha as [<-|Ha].
    + rewrite Forall_forall in Hx. apply Hx.
      rewrite <- (firstn_skipn n l). apply in_or_app. right. exact Hb.
    + eapply IH; eassumption.
Qed.

(** X9.  The signature [createObjectSignature] builds.  Its [objects]
    are the detections of score above 0.5, sorted by falling score (the
    sort is in place); [objectCount] is their number;
    [dominantObjects] are the classes of the first three of them, at
    most three names -- exactly [min 3 objectCount] -- and no object left
    out of the first three has a higher score than one of them. *)
Theorem createObjectSignature_shape (detectedObjects : list DetectedObject) :
  let sig := createObjectSignature detectedObjects in
  let n := List.length (objects sig) in
  Permutation (objects sig)
    (filter (fun obj => negb (Qle_bool (score obj) (1 # 2))) detectedObjects) /\
  Forall (fun obj => 1 # 2 < score obj) (objects sig) /\
  StronglySorted (fun a b => score b <= score a) (objects sig) /\
  objectCount sig = inject_Z (Z.of_nat n) /\
  0 <= objectCount sig /\
  dominantObjects sig = map class (firstn 3 (objects sig)) /\
  List.length (dominantObjects sig) = Nat.min 3 n /\
  (forall a b, In a (firstn 3 (objects sig)) -> In b (skipn 3 (objects sig)) ->
               score b <= score a).
Proof.
  intros sig n. unfold sig, n, createObjectSignature, slice0. cbn [objects dominantObjects objectCount].
  set (confident := filter _ detectedObjects).
  assert (Hp : Permutation (sort byScore confident) confident)
    by apply sort_Permutation.
  split; [exact Hp|]. split; [|split; [apply sort_byScore_sorted|]].
  - eapply Permutation_Forall; [symmetry; exact Hp|].
    apply Forall_forall. intros obj Hobj. unfold confident in Hobj.
    apply filter_In in Hobj as [_ Hs]. apply negb_true_iff in Hs.
    assert (~ score obj <= 1 # 2) by (rewrite <- Qle_bool_iff; congruence). lra.
  - split; [reflexivity|]. split.
    + change 0 with (inject_Z 0). rewrite <- Zle_Qle. lia.
    + split; [reflexivity|]. split.
      * rewrite length_map, length_firstn. reflexivity.
      * apply (sorted_split (fun a b => score b <= score a)).
        apply sort_byScore_sorted.
Qed.

(** *** Distinct strings *)

Lemma Set_of_length_le (l : list string) :
  (List.length (Set_of l) <= List.length l)%nat.
Proof.
  induction l as [|a l IH]; cbn [Set_of List.length]; [lia|].
  pose proof (filter_length_le (fun y => negb (a =? y)%string) (Set_of l)). lia.
Qed.

Lemma Set_of_length_NoDup (l : list string) :
  List.length (Set_of l) = List.length l <-> NoDup l.
Proof.
  split.
  - intros E. apply (@NoDup_incl_NoDup _ (Set_of l) l).
    + apply Set_of_NoDup.
    + lia.
    + intros x Hx. apply Set_of_In. exact Hx.
  - intros Hn. apply Permutation_length, NoDup_Permutation;
      [apply Set_of_NoDup | exact Hn | apply Set_of_In].
Qed.

Lemma Set_size_twice (l : list string) :
  Set_size (l ++ l) = Z.of_nat (List.length (Set_of l)).
Proof.
  unfold Set_size. f_equal.
  apply Permutation_length, NoDup_Permutation; try apply Set_of_NoDup.
  intros x. rewrite !Set_of_In, in_app_iff. tauto.
Qed.

Lemma filter_includes_self (l : list string) : filter (includes l) l = l.
Proof.
  apply forallb_filter_id. apply forallb_forall. intros x Hx.
  apply includes_In. exact Hx.
Qed.

Lemma Math_max3_ge_1 (x y : Q) : 1 <= Math_max3 x y 1.
Proof.
  unfold Math_max3.
  destruct (Math_max2_spec (Math_max2 x y) 1) as (_ & H1 & _). exact H1.
Qed.

Lemma countSimilarity_le_1 (c1 c2 : Q) :
  1 - Math_abs (c1 - c2) / Math_max3 c1 c2 1 <= 1.
Proof.
  destruct (Math_abs_spec (c1 - c2)) as (A0 & _).
  pose proof (Math_max3_ge_1 c1 c2) as Hm.
  assert (0 <= Math_abs (c1 - c2) / Math_max3 c1 c2 1)
    by (apply Qle_shift_div_l; lra).
  lra.
Qed.

Lemma countSimilarity_self (c : Q) :
  1 - Math_abs (c - c) / Math_max3 c c 1 == 1.
Proof.
  assert (E : Math_abs (c - c) == 0).
  { destruct (Math_abs_spec (c - c)) as (_ & [E|E]); rewrite E; lra. }
  rewrite E. unfold Qdiv. lra.
Qed.

(** X10.  A signature compared with itself.  When it has a dominant
    object at all the score is at least 1, and it is exactly 1 if and
    only if its dominant objects are free of duplicates: a repeated class
    name, which [createObjectSignature] does not remove, pushes the score
    above 1. *)
Theorem calculateSimilarity_self (sig : ObjectSignature) :
  dominantObjects sig <> [] ->
  1 <= calculateSimilarity sig sig /\
  (calculateSimilarity sig sig == 1 <-> NoDup (dominantObjects sig)).
Proof.
  intros Hne. unfold calculateSimilarity.
  change (fun obj => includes (dominantObjects sig) obj)
    with (includes (dominantObjects sig)).
  rewrite filter_includes_self, Set_size_twice.
  set (l := dominantObjects sig) in *.
  pose proof (Set_of_length_le l) as Hle.
  pose proof (Set_of_length_NoDup l) as Hnd.
  assert (Hpos : (0 < List.length (Set_of l))%nat).
  { destruct l as [|a l']; [congruence|]. cbn. lia. }
  destruct (Z.eqb_spec (Z.of_nat (List.length (Set_of l))) 0) as [E|_]; [lia|].
  rewrite countSimilarity_self.
  set (d := Z.of_nat (List.length (Set_of l))) in *.
  set (n := Z.of_nat (List.length l)) in *.
  assert (Hd : 0 < inject_Z d) by (change 0 with (inject_Z 0); rewrite <- Zlt_Qlt; lia).
  assert (Hx : 1 <= inject_Z n / inject_Z d).
  { apply Qle_shift_div_l; [exact Hd|]. rewrite Qmult_1_l, <- Zle_Qle. lia. }
  split; [lra|]. rewrite <- Hnd. split.
  - intros E.
    assert (Hx1 : inject_Z n / inject_Z d <= 1) by lra.
    assert (Hn : inject_Z n <= inject_Z d).
    { apply (Qmult_le_r _ _ (/ inject_Z d)); [apply Qinv_lt_0_compat; exact Hd|].
      rewrite (Qmult_inv_r (inject_Z d)) by lra. exact Hx1. }
    rewrite <- Zle_Qle in Hn. lia.
  - intros E. assert (En : n = d) by lia. rewrite En.
    unfold Qdiv. rewrite Qmult_inv_r by lra. lra.
Qed.
End SignatureFacts.

Lemma calculateSimilarity_self_witness :
  let sig := ObjectDetection.createObjectSignature
    [ {| ObjectDetection.class := "person"; ObjectDetection.score := 9 # 10;
         ObjectDetection.bbox := (0, 0, 10, 10)%Q |};
      {| ObjectDetection.class := "cup"; ObjectDetection.score := 3 # 10;
         ObjectDetection.bbox := (0, 0, 10, 10)%Q |};
      {| ObjectDetection.class := "person"; ObjectDetection.score := 8 # 10;
         ObjectDetection.bbox := (5, 5, 10, 10)%Q |} ] in
  ObjectDetection.dominantObjects sig = ["person"; "person"]%string /\
  (1 <= ObjectDetection.calculateSimilarity sig sig)%Q /\
  ~ (ObjectDetection.calculateSimilarity sig sig == 1)%Q.
Proof.
  intros sig.
  assert (Hd : ObjectDetection.dominantObjects sig = ["person"; "person"]%string)
    by reflexivity.
  assert (Hne : ObjectDetection.dominantObjects sig <> []) by (rewrite Hd; discriminate).
  destruct (calculateSimilarity_self sig Hne) as (Hge & Hiff).
  split; [exact Hd|]. split; [exact Hge|].
  intros E. apply Hiff in E. rewrite Hd in E.
  inversion E as [|? ? Hnin _]. apply Hnin. left. reflexivity.
Defined.

Section MatchFacts.
Import ObjectDetection.
Local Open Scope Q_scope.

(** The score written with its two parts named. *)
Lemma calculateSimilarity_parts (sig1 sig2 : ObjectSignature) :
  let shared := Z.of_nat (List.length
                  (filter (includes (dominantObjects sig2)) (dominantObjects sig1))) in
  let total := Set_size (dominantObjects sig1 ++ dominantObjects sig2) in
  total <> 0%Z ->
  calculateSimilarity sig1 sig2
  = inject_Z shared / inject_Z total * (7 # 10)
    + (1 - Math_abs (objectCount sig1 - objectCount sig2)
           / Math_max3 (objectCount sig1) (objectCount sig2) 1) * (3 # 10).
Proof.
  intros shared total Ht. unfold calculateSimilarity. fold total.
  destruct (Z.eqb_spec total 0); [contradiction|]. reflexivity.
Qed.

Lemma Set_size_nonneg (l : list string) : (0 <= Set_size l)%Z.
Proof. unfold Set_size. lia. Qed.

Lemma Set_size_app_le (l1 l2 : list string) :
  (Set_size (l1 ++ l2) <= Z.of_nat (List.length l1) + Z.of_nat (List.length l2))%Z.
Proof.
  unfold Set_size. pose proof (Set_of_length_le (l1 ++ l2)) as Hle.
  rewrite length_app in Hle. lia.
Qed.

(** Without a shared dominant object the score is at most 0.3. *)
Lemma calculateSimilarity_nothing_shared (sig1 sig2 : ObjectSignature) :
  filter (includes (dominantObjects sig2)) (dominantObjects sig1) = [] ->
  calculateSimilarity sig1 sig2 <= 3 # 10.
Proof.
  intros Hs.
  destruct (Z.eq_dec (Set_size (dominantObjects sig1 ++ dominantObjects sig2)) 0)
    as [E|N].
  - unfold calculateSimilarity. rewrite E. cbn. lra.
  - rewrite (calculateSimilarity_parts sig1 sig2 N), Hs. cbn [List.length Z.of_nat].
    pose proof (countSimilarity_le_1 (objectCount sig1) (objectCount sig2)) as Hy.
    revert Hy. generalize (Math_abs (objectCount sig1 - objectCount sig2)
                           / Math_max3 (objectCount sig1) (objectCount sig2) 1).
    intros u Hy.
    assert (E0 : inject_Z 0 / inject_Z (Set_size (dominantObjects sig1 ++ dominantObjects sig2)) == 0)
      by (unfold Qdiv; change (inject_Z 0) with 0; lra).
    rewrite E0. lra.
Qed.

(** X11.  Every match [findMatches] returns comes from a stored
    signature that shares at least one dominant object with the new
    signature: without a common class name the score is at most 0.3 and
    the threshold is out of reach, whatever the object counts. *)
Theorem findMatches_needs_shared_object (newSignature : ObjectSignature)
        (storedSignatures : list StoredSignature) :
  Forall (fun m =>
            exists stored obj,
              In stored storedSignatures /\
              m_id m = id stored /\ m_userTag m = userTag stored /\
              In obj (dominantObjects newSignature) /\
              In obj (dominantObjects (signature stored)))
         (findMatches newSignature storedSignatures).
Proof.
  apply Forall_forall. intros m Hm. apply findMatches_In in Hm.
  apply candidates_In in Hm as (Hc & stored & Hs & Hi & Hu & Hconf).
  destruct (filter (includes (dominantObjects (signature stored)))
                   (dominantObjects newSignature)) as [|obj rest] eqn:F.
  - exfalso. pose proof (calculateSimilarity_nothing_shared _ _ F) as Hle.
    rewrite <- Hconf in Hle. lra.
  - assert (Hobj : In obj (filter (includes (dominantObjects (signature stored)))
                                  (dominantObjects newSignature)))
      by (rewrite F; left; reflexivity).
    apply filter_In in Hobj as [H1 H2]. apply includes_In in H2.
    exists stored, obj. repeat split; assumption.
Qed.

(** X12.  Nothing detected, nothing matched: when no detection has a
    score above 0.5 the signature has no dominant object, and
    [findMatches] returns no match for it, whatever is stored. *)
Theorem nothing_confident_nothing_matched (detectedObjects : list DetectedObject)
        (storedSignatures : list StoredSignature) :
  Forall (fun obj => score obj <= 1 # 2) detectedObjects ->
  dominantObjects (createObjectSignature detectedObjects) = [] /\
  objectCount (createObjectSignature detectedObjects) = 0 /\
  findMatches (createObjectSignature detectedObjects) storedSignatures = [].
Proof.
  intros Hlow.
  assert (Hf : filter (fun obj => negb (Qle_bool (score obj) (1 # 2))) detectedObjects = []).
  { induction Hlow as [|obj l Hobj _ IH]; [reflexivity|]. cbn [filter].
    apply Qle_bool_iff in Hobj. rewrite Hobj. exact IH. }
  assert (Hd : dominantObjects (createObjectSignature detectedObjects) = [])
    by (unfold createObjectSignature; rewrite Hf; reflexivity).
  split; [exact Hd|].
  split; [unfold createObjectSignature; rewrite Hf; reflexivity|].
  destruct (findMatches (createObjectSignature detectedObjects) storedSignatures)
    as [|m rest] eqn:E; [reflexivity|].
  exfalso.
  assert (Hm : In m (findMatches (createObjectSignature detectedObjects) storedSignatures))
    by (rewrite E; left; reflexivity).
  apply findMatches_In, candidates_In in Hm as (Hc & stored & _ & _ & _ & Hconf).
  assert (F : filter (includes (dominantObjects (signature stored)))
                     (dominantObjects (createObjectSignature detectedObjects)) = [])
    by (rewrite Hd; reflexivity).
  pose proof (calculateSimilarity_nothing_shared _ _ F) as Hle.
  rewrite <- Hconf in Hle. lra.
Qed.

(** X13.  What a match means.  If the new signature's dominant objects
    are free of duplicates and neither side has more than three of
    them, a stored signature is returned only if it has the very same
    set of dominant objects and its object count differs from the new
    one by at most a third of the larger of the two counts and 1. *)
Theorem match_means_same_objects (newSignature : ObjectSignature)
        (storedSignatures : list StoredSignature) :
  NoDup (dominantObjects newSignature) ->
  (List.length (dominantObjects newSignature) <= 3)%nat ->
  Forall (fun stored => (List.length (dominantObjects (signature stored)) <= 3)%nat)
         storedSignatures ->
  Forall (fun m =>
            exists stored,
              In stored storedSignatures /\
              m_id m = id stored /\ m_userTag m = userTag stored /\
              sameStrings (dominantObjects newSignature)
                          (dominantObjects (signature stored)) /\
              3 * Math_abs (objectCount newSignature - objectCount (signature stored))
              <= Math_max3 (objectCount newSignature)
                           (objectCount (signature stored)) 1)
         (findMatches newSignature storedSignatures).
Proof.
  intros Hnd Hlen Hstored.
  apply Forall_forall. intros m Hm. apply findMatches_In in Hm.
  apply candidates_In in Hm as (Hc & stored & Hs & Hi & Hu & Hconf).
  exists stored. do 3 (split; [assumption|]). split.
  - (* the same dominant objects *)
    rewrite Forall_forall in Hstored. specialize (Hstored stored Hs).
    set (l1 := dominantObjects newSignature) in *.
    set (l2 := dominantObjects (signature stored)) in *.
    destruct (Z.eq_dec (Set_size (l1 ++ l2)) 0) as [E|N].
    { apply Set_size_zero in E. apply app_eq_nil in E as [E1 E2].
      unfold sameStrings. intros x. rewrite E1, E2. tauto. }
    rewrite (calculateSimilarity_parts newSignature stored.(signature) N) in Hconf.
    fold l1 l2 in Hconf.
    pose proof (countSimilarity_le_1 (objectCount newSignature)
                                     (objectCount (signature stored))) as Hy.
    pose proof (shared_le_total l1 l2 Hnd) as Hst.
    pose proof (Set_size_app_le l1 l2) as Ht6.
    pose proof (Set_size_nonneg (l1 ++ l2)) as Ht0.
    set (s := Z.of_nat (List.length (filter (includes l2) l1))) in *.
    set (t := Set_size (l1 ++ l2)) in *.
    assert (Htpos : 0 < inject_Z t)
      by (change 0 with (inject_Z 0); rewrite <- Zlt_Qlt; lia).
    assert (Hx : 6 # 7 <= inject_Z s / inject_Z t).
    { revert Hconf Hy Hc.
      generalize (Math_abs (objectCount newSignature - objectCount (signature stored))
                  / Math_max3 (objectCount newSignature) (objectCount (signature stored)) 1).
      generalize (inject_Z s / inject_Z t). intros x u Hconf Hy Hc.
      rewrite Hconf in Hc. lra. }
    assert (H7 : (6 # 7) * inject_Z t <= inject_Z s).
    { apply (Qmult_le_r _ _ (/ inject_Z t)); [apply Qinv_lt_0_compat; exact Htpos|].
      rewrite <- Qmult_assoc, Qmult_inv_r by lra. rewrite Qmult_1_r. exact Hx. }
    assert (H7z : (6 * t <= 7 * s)%Z).
    { rewrite Zle_Qle, !inject_Z_mult.
      change (inject_Z 6) with (6 # 1). change (inject_Z 7) with (7 # 1). lra. }
    assert (Hst' : (t <= s)%Z) by lia.
    assert (Hall : incl (Set_of (l1 ++ l2)) (filter (includes l2) l1)).
    { apply NoDup_length_incl.
      - apply NoDup_filter, Hnd.
      - unfold s, t, Set_size in Hst'. lia.
      - intros x Hx'. apply filter_In in Hx' as [Hx' _].
        apply Set_of_In, in_or_app. left. exact Hx'. }
    intros x. split; intros Hin.
    + assert (Hx' : In x (Set_of (l1 ++ l2)))
        by (apply Set_of_In, in_or_app; left; exact Hin).
      apply Hall, filter_In in Hx' as [_ Hx']. apply includes_In. exact Hx'.
    + assert (Hx' : In x (Set_of (l1 ++ l2)))
        by (apply Set_of_In, in_or_app; right; exact Hin).
      apply Hall, filter_In in Hx' as [Hx' _]. exact Hx'.
  - (* object counts close to each other *)
    set (l1 := dominantObjects newSignature) in *.
    set (l2 := dominantObjects (signature stored)) in *.
    destruct (Z.eq_dec (Set_size (l1 ++ l2)) 0) as [E|N].
    { exfalso. unfold calculateSimilarity in Hconf. fold l1 l2 in Hconf.
      rewrite E in Hconf. cbn in Hconf. rewrite Hconf in Hc. lra. }
    rewrite (calculateSimilarity_parts newSignature stored.(signature) N) in Hconf.
    fold l1 l2 in Hconf.
    pose proof (shared_le_total l1 l2 Hnd) as Hst.
    pose proof (Set_size_nonneg (l1 ++ l2)) as Ht0.
    assert (Hx : inject_Z (Z.of_nat (List.length (filter (includes l2) l1)))
                 / inject_Z (Set_size (l1 ++ l2)) <= 1).
    { apply objectSimilarity_range; [split; [lia | exact Hst] | exact N]. }
    pose proof (Math_max3_ge_1 (objectCount newSignature)
                               (objectCount (signature stored))) as Hmx.
    set (mx := Math_max3 (objectCount newSignature) (objectCount (signature stored)) 1) in *.
    set (ab := Math_abs (objectCount newSignature - objectCount (signature stored))) in *.
    assert (Hu3 : ab / mx <= 1 # 3).
    { revert Hconf Hx Hc. generalize (ab / mx).
      generalize (inject_Z (Z.of_nat (List.length (filter (includes l2) l1)))
                  / inject_Z (Set_size (l1 ++ l2))).
      intros x u Hconf Hx Hc. rewrite Hconf in Hc. lra. }
    assert (Hab : ab <= (1 # 3) * mx).
    { apply (Qmult_le_r _ _ (/ mx)); [apply Qinv_lt_0_compat; lra|].
      rewrite <- Qmult_assoc, Qmult_inv_r by lra. rewrite Qmult_1_r. exact Hu3. }
    lra.
Qed.
End MatchFacts.

Lemma nothing_confident_nothing_matched_witness :
  let detected :=
    [ {| ObjectDetection.class := "cup"; ObjectDetection.score := 1 # 2;
         ObjectDetection.bbox := (0, 0, 10, 10)%Q |};
      {| ObjectDetection.class := "chair"; ObjectDetection.score := 2 # 10;
         ObjectDetection.bbox := (3, 4, 10, 10)%Q |} ] in
  let stored :=
    [ {| ObjectDetection.id := 1;
         ObjectDetection.signature :=
           {| ObjectDetection.objects := [];
              ObjectDetection.dominantObjects := [];
              ObjectDetection.objectCount := 0 |};
         ObjectDetection.userTag := "empty shelf" |} ] in
  ObjectDetection.findMatches (ObjectDetection.createObjectSignature detected) stored = [].
Proof.
  intros detected stored.
  apply (nothing_confident_nothing_matched detected stored).
  repeat constructor; cbn; unfold Qle; cbn; lia.
Defined.

Lemma match_means_same_objects_witness :
  let new := {| ObjectDetection.objects := [];
                ObjectDetection.dominantObjects := ["cup"; "bottle"]%string;
                ObjectDetection.objectCount := 3 |} in
  let stored :=
    [ {| ObjectDetection.id := 4;
         ObjectDetection.signature :=
           {| ObjectDetection.objects := [];
              ObjectDetection.dominantObjects := ["bottle"; "cup"]%string;
              ObjectDetection.objectCount := 3 |};
         ObjectDetection.userTag := "kitchen table" |} ] in
  map ObjectDetection.m_id (ObjectDetection.findMatches new stored) = [4] /\
  Forall (fun m => exists st, In st stored /\
                   ObjectDetection.m_id m = ObjectDetection.id st /\
                   ObjectDetection.sameStrings
                     (ObjectDetection.dominantObjects new)
                     (ObjectDetection.dominantObjects (ObjectDetection.signature st)))
         (ObjectDetection.findMatches new stored).
Proof.
  intros new stored. split; [vm_compute; reflexivity|].
  assert (Hnd : NoDup (ObjectDetection.dominantObjects new))
    by (cbn; repeat constructor; cbn; intuition discriminate).
  assert (Hlen : (List.length (ObjectDetection.dominantObjects new) <= 3)%nat)
    by (cbn; lia).
  assert (Hst : Forall (fun st => (List.length (ObjectDetection.dominantObjects
                                     (ObjectDetection.signature st)) <= 3)%nat) stored)
    by (repeat constructor; cbn; lia).
  eapply Forall_impl; [|exact (match_means_same_objects new stored Hnd Hlen Hst)].
  cbv beta. intros m (st & H1 & H2 & _ & H4 & _). exists st. auto.
Defined.

Section BestMatchFacts.
Import ObjectDetection.
Local Open Scope Q_scope.



Lemma insert_stable (c : Q) (a : Match) (l : list Match) :
  filter (fun m => Qeq_bool (confidence m) c) (insert byConfidence a l)
  = filter (fun m => Qeq_bool (confidence m) c) (a :: l).
Proof.
  induction l as [|b l IH]; cbn [insert]; [reflexivity|].
  destruct (Qle_bool (byConfidence a b) 0) eqn:E; [reflexivity|].
  assert (Hlt : ~ byConfidence a b <= 0) by (rewrite <- Qle_bool_iff; congruence).
  unfold byConfidence in Hlt.
  cbn [filter] in IH |- *. rewrite IH.
  destruct (Qeq_bool (confidence a) c) eqn:Ea;
    destruct (Qeq_bool (confidence b) c) eqn:Eb; try reflexivity.
  exfalso. apply Qeq_bool_iff in Ea, Eb. lra.
Qed.

(** X16.  Ties keep the stored order.  For every confidence value, the
    returned matches of that confidence are the first such candidates, in
    the order in which their signatures are stored. *)
Theorem findMatches_ties_in_stored_order (newSignature : ObjectSignature)
        (storedSignatures : list StoredSignature) (c : Q) :
  let sameConfidence := fun m => Qeq_bool (confidence m) c in
  exists rest,
    filter sameConfidence (candidates newSignature storedSignatures)
    = (filter sameConfidence (findMatches newSignature storedSignatures) ++ rest)%list.
Proof.
  intros sameConfidence. rewrite findMatches_candidates.
  set (cands := candidates newSignature storedSignatures).
  exists (filter sameConfidence (skipn 3 (sort byConfidence cands))).
  rewrite <- filter_app, firstn_skipn.
  unfold sort. induction cands as [|a l IH]; [reflexivity|].
  cbn [fold_right]. unfold sameConfidence in *. rewrite insert_stable.
  cbn [filter]. rewrite IH. reflexivity.
Qed.

Lemma calculateSimilarity_le_1 (sig1 sig2 : ObjectSignature) :
  NoDup (dominantObjects sig1) -> calculateSimilarity sig1 sig2 <= 1.
Proof.
  intros Hnd.
  destruct (Z.eq_dec (Set_size (dominantObjects sig1 ++ dominantObjects sig2)) 0)
    as [E|N].
  - unfold calculateSimilarity. rewrite E. cbn. lra.
  - rewrite (calculateSimilarity_parts sig1 sig2 N).
    pose proof (countSimilarity_le_1 (objectCount sig1) (objectCount sig2)) as Hy.
    assert (Hx : inject_Z (Z.of_nat (List.length
                   (filter (includes (dominantObjects sig2)) (dominantObjects sig1))))
                 / inject_Z (Set_size (dominantObjects sig1 ++ dominantObjects sig2)) <= 1).
    { apply objectSimilarity_range; [split; [lia | apply shared_le_total, Hnd] | exact N]. }
    revert Hx Hy.
    generalize (Math_abs (objectCount sig1 - objectCount sig2)
                / Math_max3 (objectCount sig1) (objectCount sig2) 1).
    generalize (inject_Z (Z.of_nat (List.length
                   (filter (includes (dominantObjects sig2)) (dominantObjects sig1))))
                / inject_Z (Set_size (dominantObjects sig1 ++ dominantObjects sig2))).
    intros x u Hx Hy. lra.
Qed.

(** X17.  The percentage shown for a match.  When the new signature's
    dominant objects are free of duplicates, every match is shown with a
    percentage from 90 to 100. *)
Theorem matchPercent_range (newSignature : ObjectSignature)
        (storedSignatures : list StoredSignature) :
  NoDup (dominantObjects newSignature) ->
  Forall (fun m => (90 <= matchPercent m <= 100)%Z)
         (findMatches newSignature storedSignatures).
Proof.
  intros Hnd. apply Forall_forall. intros m Hm.
  apply findMatches_In, candidates_In in Hm as (Hc & stored & _ & _ & _ & Hconf).
  pose proof (calculateSimilarity_le_1 newSignature (signature stored) Hnd) as H1.
  rewrite <- Hconf in H1. unfold matchPercent, Math_round. split.
  - apply Z.le_trans with (Qfloor (90 # 1));
      [vm_compute; discriminate | apply Qfloor_resp_le; lra].
  - apply Z.le_trans with (Qfloor (201 # 2));
      [apply Qfloor_resp_le; lra | vm_compute; discriminate].
Qed.
End BestMatchFacts.

Lemma matchPercent_range_witness :
  let new := {| ObjectDetection.objects := [];
                ObjectDetection.dominantObjects := ["cup"; "bottle"]%string;
                ObjectDetection.objectCount := 3 |} in
  let stored :=
    [ {| ObjectDetection.id := 4;
         ObjectDetection.signature :=
           {| ObjectDetection.objects := [];
              ObjectDetection.dominantObjects := ["bottle"; "cup"]%string;
              ObjectDetection.objectCount := 4 |};
         ObjectDetection.userTag := "kitchen table" |} ] in
  map ObjectDetection.matchPercent (ObjectDetection.findMatches new stored) = [93] /\
  Forall (fun m => 90 <= ObjectDetection.matchPercent m <= 100)
         (ObjectDetection.findMatches new stored).
Proof.
  intros new stored. split; [vm_compute; reflexivity|].
  apply (matchPercent_range new stored).
  cbn. repeat constructor; cbn; intuition discriminate.
Defined.

(** ** The WAV encoder *)

Section WavFacts.
Import Wav.

Lemma store_app (pre rest : list Z) (old b : Z) :
  store (List.length pre) b (pre ++ old :: rest) = (pre ++ b :: rest)%list.
Proof. induction pre as [|p pre IH]; cbn; [reflexivity|]. rewrite IH. reflexivity. Qed.

Lemma storeAll_app (pre old bs rest : list Z) :
  List.length old = List.length bs ->
  storeAll (List.length pre) bs (pre ++ old ++ rest) = (pre ++ bs ++ rest)%list.
Proof.
  revert pre old. induction bs as [|b bs IH]; intros pre old Hlen.
  - destruct old; [reflexivity | discriminate Hlen].
  - destruct old as [|o old]; [discriminate Hlen|]. cbn [storeAll].
    change ((o :: old) ++ rest)%list with (o :: old ++ rest)%list.
    rewrite store_app.
    change (pre ++ b :: old ++ rest)%list with (pre ++ [b] ++ old ++ rest)%list.
    rewrite app_assoc.
    replace (S (List.length pre)) with (List.length (pre ++ [b]))
      by (rewrite length_app; cbn; lia).
    rewrite IH by (cbn in Hlen; lia).
    rewrite <- app_assoc. reflexivity.
Qed.

Lemma length_bytesLE (size : nat) (v : Z) : List.length (bytesLE size v) = size.
Proof. revert v. induction size as [|n IH]; intros v; cbn; [reflexivity|]. rewrite IH. reflexivity. Qed.

(** A setter whose bytes fit overwrites exactly those bytes. *)
Lemma setBytes_app (pre old rest : list Z) (size : nat) (v : Z) :
  List.length old = size ->
  setBytes (pre ++ old ++ rest) (List.length pre) size v
  = Some (pre ++ bytesLE size v ++ rest)%list.
Proof.
  intros Hlen. unfold setBytes.
  replace (List.length pre + size <=? List.length (pre ++ old ++ rest))%nat with true.
  - rewrite storeAll_app by (rewrite length_bytesLE; exact Hlen). reflexivity.
  - symmetry. apply Nat.leb_le. rewrite !length_app. lia.
Qed.

Lemma writeString_app (pre old rest : list Z) (s : string) :
  List.length old = String.length s ->
  writeString (pre ++ old ++ rest) (List.length pre) s
  = Some (pre ++ tagBytes s ++ rest)%list.
Proof.
  revert pre old. induction s as [|c s IH]; intros pre old Hlen.
  - destruct old; [reflexivity | discriminate Hlen].
  - destruct old as [|o old]; [discriminate Hlen|]. cbn [writeString].
    unfold setUint8.
    change ((o :: old) ++ rest)%list with ([o] ++ old ++ rest)%list.
    rewrite setBytes_app by reflexivity. cbn [bindE bytesLE].
    change (pre ++ [ToUint8 (charCode c) mod 256] ++ old ++ rest)%list
      with (pre ++ [ToUint8 (charCode c) mod 256] ++ (old ++ rest))%list.
    rewrite app_assoc.
    replace (S (List.length pre))
      with (List.length (pre ++ [ToUint8 (charCode c) mod 256]))
      by (rewrite length_app; cbn; lia).
    rewrite IH by (cbn in Hlen; lia).
    rewrite <- app_assoc. reflexivity.
Qed.

Lemma writeSamples_app (pre : list Z) (samples : list Q) :
  writeSamples (pre ++ repeat 0 (List.length samples * 2)) (List.length pre) samples
  = Some (pre ++ flat_map sampleBytes samples)%list.
Proof.
  revert pre. induction samples as [|x l IH]; intros pre.
  - cbn. reflexivity.
  - cbn [writeSamples List.length Nat.mul Nat.add repeat flat_map].
    unfold setInt16.
    change (pre ++ 0 :: 0 :: repeat 0 (List.length l * 2))%list
      with (pre ++ [0; 0] ++ repeat 0 (List.length l * 2))%list.
    rewrite setBytes_app by reflexivity. cbn [bindE].
    fold (pcm16 x). fold (sampleBytes x).
    rewrite app_assoc.
    replace (List.length pre + 2)%nat with (List.length (pre ++ sampleBytes x))
      by (rewrite length_app; reflexivity).
    rewrite IH, <- app_assoc. reflexivity.
Qed.

Lemma length_tagBytes (s : string) : List.length (tagBytes s) = String.length s.
Proof.
  unfold tagBytes. rewrite length_map.
  induction s as [|c s IH]; cbn; [reflexivity|]. rewrite IH. reflexivity.
Qed.

Lemma setBytes_at (pre old rest : list Z) (off size : nat) (v : Z) :
  off = List.length pre -> List.length old = size ->
  setBytes (pre ++ old ++ rest) off size v
  = Some ((pre ++ bytesLE size v) ++ rest)%list.
Proof. intros -> Hlen. rewrite <- app_assoc. apply setBytes_app, Hlen. Qed.

Lemma writeString_at (pre old rest : list Z) (off : nat) (s : string) :
  off = List.length pre -> List.length old = String.length s ->
  writeString (pre ++ old ++ rest) off s
  = Some ((pre ++ tagBytes s) ++ rest)%list.
Proof. intros -> Hlen. rewrite <- app_assoc. apply writeString_app, Hlen. Qed.

Lemma writeSamples_at (pre : list Z) (off : nat) (samples : list Q) :
  off = List.length pre ->
  writeSamples (pre ++ repeat 0 (List.length samples * 2)) off samples
  = Some (pre ++ flat_map sampleBytes samples)%list.
Proof. intros ->. apply writeSamples_app. Qed.

Ltac wav_offset :=
  rewrite ?length_app, ?length_tagBytes, ?length_bytesLE; reflexivity.

Ltac wav_step :=
  match goal with
  | |- context [writeString (?pre ++ ?old ++ ?rest)%list ?off ?s] =>
      rewrite (writeString_at pre old rest off s) by wav_offset
  | |- context [setBytes (?pre ++ ?old ++ ?rest)%list ?off ?sz ?v] =>
      rewrite (setBytes_at pre old rest off sz v) by wav_offset
  end; cbn [bindE].

(** The encoder never fails, and its output is the header followed by
    two bytes per sample. *)
Lemma encodeWAV_layout (audioBuffer : AudioBuffer) :
  encodeWAV audioBuffer
  = Some (headerBytes (List.length (channelData audioBuffer)) (sampleRate audioBuffer)
          ++ flat_map sampleBytes (channelData audioBuffer))%list.
Proof.
  unfold encodeWAV, headerBytes, setUint32, setUint16.
  set (size := inject_Z (Z.of_nat (List.length (channelData audioBuffer)))).
  set (rate := sampleRate audioBuffer).
  assert (Hbuf : ArrayBuffer (44 + List.length (channelData audioBuffer) * 2)
                 = ([] ++ repeat 0 4 ++ repeat 0 4 ++ repeat 0 4 ++ repeat 0 4
                    ++ repeat 0 4 ++ repeat 0 2 ++ repeat 0 2 ++ repeat 0 4
                    ++ repeat 0 4 ++ repeat 0 2 ++ repeat 0 2 ++ repeat 0 4
                    ++ repeat 0 4
                    ++ repeat 0 (List.length (channelData audioBuffer) * 2))%list)
    by reflexivity.
  rewrite Hbuf. clear Hbuf.
  do 13 wav_step.
  rewrite writeSamples_at by wav_offset.
  rewrite <- !app_assoc. reflexivity.
Qed.
End WavFacts.

Section WavClaims.
Import Wav.

Lemma bytesLE_range (size : nat) (v : Z) :
  Forall (fun b => 0 <= b < 256) (bytesLE size v).
Proof.
  revert v. induction size as [|n IH]; intros v; cbn [bytesLE]; constructor.
  - apply Z.mod_pos_bound. lia.
  - apply IH.
Qed.

Lemma tagBytes_range (s : string) : Forall (fun b => 0 <= b < 256) (tagBytes s).
Proof.
  unfold tagBytes. apply Forall_forall. intros b Hb.
  apply in_map_iff in Hb as (c & <- & _). apply Z.mod_pos_bound. lia.
Qed.

Lemma length_headerBytes (n : nat) (rate : Q) : List.length (headerBytes n rate) = 44%nat.
Proof.
  unfold headerBytes. rewrite !length_app, !length_tagBytes, !length_bytesLE.
  reflexivity.
Qed.

Lemma length_samples (l : list Q) :
  List.length (flat_map sampleBytes l) = (2 * List.length l)%nat.
Proof. induction l as [|x l IH]; cbn; [reflexivity|]. rewrite IH. lia. Qed.

(** X18.  The encoder never raises a [RangeError]: every write lands
    inside the buffer.  The file it returns has 44 bytes of header and
    two bytes per sample, and each of its elements is a byte. *)
Theorem encodeWAV_never_fails (audioBuffer : AudioBuffer) :
  exists bytes,
    encodeWAV audioBuffer = Some bytes /\
    List.length bytes = (44 + 2 * List.length (channelData audioBuffer))%nat /\
    Forall (fun b => 0 <= b < 256) bytes.
Proof.
  eexists. split; [apply encodeWAV_layout|]. split.
  - rewrite length_app, length_headerBytes, length_samples. reflexivity.
  - apply Forall_app. split.
    + unfold headerBytes.
      repeat (apply Forall_app; split);
        try apply tagBytes_range; apply bytesLE_range.
    + apply Forall_flat_map. apply Forall_forall. intros x _. apply bytesLE_range.
Qed.

(** Reading back what a setter wrote. *)
Lemma decode32 (v : Z) :
  0 <= v < 4294967296 ->
  v mod 256 + 256 * (v / 256 mod 256)
  + 65536 * (v / 256 / 256 mod 256 + 256 * (v / 256 / 256 / 256 mod 256)) = v.
Proof. intros Hv. Z.div_mod_to_equations. lia. Qed.

Lemma decode16 (v : Z) :
  0 <= v < 65536 -> v mod 256 + 256 * (v / 256 mod 256) = v.
Proof. intros Hv. Z.div_mod_to_equations. lia. Qed.

Lemma truncate_inject_Z (k : Z) : truncate (inject_Z k) = k.
Proof. unfold truncate. cbn. apply Z.quot_1_r. Qed.

Lemma ToUint32_inject_Z (k : Z) :
  0 <= k < 4294967296 -> ToUint32 (inject_Z k) = k.
Proof. intros Hk. unfold ToUint32. rewrite truncate_inject_Z. apply Z.mod_small, Hk. Qed.

Lemma truncate_affine (a k b : Z) :
  truncate (inject_Z a + inject_Z k * inject_Z b) = a + k * b.
Proof. unfold truncate. cbn. rewrite Z.quot_1_r. lia. Qed.

Lemma truncate_scaled (k b : Z) :
  truncate (inject_Z k * inject_Z b) = k * b.
Proof. unfold truncate. cbn. rewrite Z.quot_1_r. lia. Qed.

Lemma headerBytes_fields (n : nat) (rate : Z) :
  0 <= rate < 2147483648 ->
  Z.of_nat n < 2147483630 ->
  headerBytes n (inject_Z rate)
  = ([82; 73; 70; 70] ++ bytesLE 4 (36 + 2 * Z.of_nat n)
     ++ [87; 65; 86; 69] ++ [102; 109; 116; 32]
     ++ bytesLE 4 16 ++ bytesLE 2 1 ++ bytesLE 2 1
     ++ bytesLE 4 rate ++ bytesLE 4 (2 * rate)
     ++ bytesLE 2 2 ++ bytesLE 2 16
     ++ [100; 97; 116; 97] ++ bytesLE 4 (2 * Z.of_nat n))%list.
Proof.
  intros Hr Hn. unfold headerBytes.
  change (tagBytes "RIFF") with [82; 73; 70; 70].
  change (tagBytes "WAVE") with [87; 65; 86; 69].
  change (tagBytes "fmt ") with [102; 109; 116; 32].
  change (tagBytes "data") with [100; 97; 116; 97].
  change (ToUint32 16) with 16. change (ToUint16 1) with 1.
  change (ToUint16 2) with 2. change (ToUint16 16) with 16.
  assert (E1 : ToUint32 (36 + inject_Z (Z.of_nat n) * 2) = 36 + 2 * Z.of_nat n).
  { unfold ToUint32.
    change (36 + inject_Z (Z.of_nat n) * 2)%Q
      with (inject_Z 36 + inject_Z (Z.of_nat n) * inject_Z 2)%Q.
    rewrite truncate_affine, Z.mod_small; lia. }
  assert (E2 : ToUint32 (inject_Z rate) = rate) by (apply ToUint32_inject_Z; lia).
  assert (E3 : ToUint32 (inject_Z rate * 2) = 2 * rate).
  { unfold ToUint32. change (inject_Z rate * 2)%Q with (inject_Z rate * inject_Z 2)%Q.
    rewrite truncate_scaled, Z.mod_small; lia. }
  assert (E4 : ToUint32 (inject_Z (Z.of_nat n) * 2) = 2 * Z.of_nat n).
  { unfold ToUint32.
    change (inject_Z (Z.of_nat n) * 2)%Q with (inject_Z (Z.of_nat n) * inject_Z 2)%Q.
    rewrite truncate_scaled, Z.mod_small; lia. }
  rewrite E1, E2, E3, E4. reflexivity.
Qed.

(** X19.  The header a reader finds.  For a whole sample rate below
    2^31 Hz and fewer than 2^31 - 18 samples, the file starts with the
    tags "RIFF", "WAVE", "fmt " and "data" in their places; the RIFF size
    field is the length of the file minus 8 and the data size field the
    length minus 44; the format is PCM (1), one channel, the given
    sample rate, 16 bits per sample, two bytes per frame, and a byte
    rate of twice the sample rate. *)
Theorem encodeWAV_header (audioBuffer : AudioBuffer) (rate : Z) (bytes : list Z) :
  encodeWAV audioBuffer = Some bytes ->
  sampleRate audioBuffer = inject_Z rate ->
  0 <= rate < 2147483648 ->
  Z.of_nat (List.length (channelData audioBuffer)) < 2147483630 ->
  let n := Z.of_nat (List.length (channelData audioBuffer)) in
  getString bytes 0 4 = [82; 73; 70; 70] /\
  getUint32 bytes 4 = Z.of_nat (List.length bytes) - 8 /\
  getString bytes 8 8 = [87; 65; 86; 69; 102; 109; 116; 32] /\
  getUint32 bytes 16 = 16 /\
  getUint16 bytes 20 = 1 /\
  getUint16 bytes 22 = 1 /\
  getUint32 bytes 24 = rate /\
  getUint32 bytes 28 = 2 * rate /\
  getUint16 bytes 32 = 2 /\
  getUint16 bytes 34 = 16 /\
  getString bytes 36 4 = [100; 97; 116; 97] /\
  getUint32 bytes 40 = 2 * n /\
  getUint32 bytes 40 = Z.of_nat (List.length bytes) - 44.
Proof.
  intros Henc Hrate Hr Hn n.
  assert (Hb : bytes = (headerBytes (List.length (channelData audioBuffer))
                                   (sampleRate audioBuffer)
                       ++ flat_map sampleBytes (channelData audioBuffer))%list)
    by (pose proof (encodeWAV_layout audioBuffer); congruence).
  subst bytes. clear Henc.
  assert (Hlen : Z.of_nat (List.length
                   (headerBytes (List.length (channelData audioBuffer))
                                (sampleRate audioBuffer)
                    ++ flat_map sampleBytes (channelData audioBuffer)))
                 = 44 + 2 * n).
  { rewrite length_app, length_headerBytes, length_samples. unfold n. lia. }
  rewrite Hlen, Hrate, headerBytes_fields by assumption. fold n.
  generalize (flat_map sampleBytes (channelData audioBuffer)). intros rest.
  assert (D1 := decode32 (36 + 2 * n) ltac:(unfold n in *; lia)).
  assert (D2 := decode32 rate ltac:(lia)).
  assert (D3 := decode32 (2 * rate) ltac:(lia)).
  assert (D4 := decode32 (2 * n) ltac:(unfold n in *; lia)).
  unfold getString, getUint32, getUint16, getUint8.
  cbn [app bytesLE nth skipn firstn Nat.add].
  repeat split; try reflexivity; lia.
Qed.
End WavClaims.

Lemma encodeWAV_header_witness :
  let ab := {| Wav.sampleRate := 44100;
               Wav.channelData := [0; 1 # 2; - (1 # 2)]%Q |} in
  exists bytes,
    Wav.encodeWAV ab = Some bytes /\
    Wav.getUint32 bytes 4 = 42 /\ Wav.getUint32 bytes 24 = 44100 /\
    Wav.getUint32 bytes 28 = 88200 /\ Wav.getUint32 bytes 40 = 6.
Proof.
  intros ab. eexists. split; [apply encodeWAV_layout|].
  assert (Hr : Wav.sampleRate ab = inject_Z 44100) by reflexivity.
  destruct (encodeWAV_header ab 44100 _ (encodeWAV_layout ab) Hr)
    as (_ & H4 & _ & _ & _ & _ & H24 & H28 & _ & _ & _ & H40 & _);
    [lia | cbn; lia |].
  rewrite H4, H24, H28, H40. vm_compute. repeat split; reflexivity.
Defined.

Section WavSamples.
Import Wav.
Local Open Scope Q_scope.

Lemma clamp_range (x : Q) : -1 <= clamp x <= 1.
Proof.
  unfold clamp, Math_max, Math_min.
  destruct (Qle_bool 1 x) eqn:E1.
  - cbn. lra.
  - assert (~ 1 <= x) by (rewrite <- Qle_bool_iff; congruence).
    destruct (Qle_bool (-1) x) eqn:E2.
    + apply Qle_bool_iff in E2. lra.
    + lra.
Qed.

Lemma clamp_inside (x : Q) : -1 <= x <= 1 -> clamp x == x.
Proof.
  intros Hx. unfold clamp, Math_max, Math_min.
  destruct (Qle_bool 1 x) eqn:E1.
  - apply Qle_bool_iff in E1. cbn. lra.
  - destruct (Qle_bool (-1) x) eqn:E2; [reflexivity|].
    assert (~ -1 <= x) by (rewrite <- Qle_bool_iff; congruence). lra.
Qed.

(** Truncation stays within one of its argument, on the side of zero. *)
Lemma truncate_spec (q : Q) :
  (0 <= q -> inject_Z (truncate q) <= q < inject_Z (truncate q) + 1) /\
  (q <= 0 -> inject_Z (truncate q) - 1 < q <= inject_Z (truncate q)).
Proof.
  destruct q as [num den]. unfold truncate, Qle, Qlt. cbn [Qnum Qden].
  pose proof (Z.quot_rem' num (Z.pos den)) as Hq.
  split; intros Hs; cbn in Hs; rewrite Z.mul_1_r in Hs.
  - pose proof (Z.rem_bound_pos num (Z.pos den) Hs ltac:(lia)) as Hr.
    cbn. rewrite ?Z.mul_1_r. split; nia.
  - pose proof (Z.rem_bound_pos_neg num (Z.pos den) ltac:(lia) Hs) as Hr.
    cbn. rewrite ?Z.mul_1_r. split; nia.
Qed.

Lemma truncate_bounds (q : Q) (k : Z) :
  (0 <= k)%Z -> - inject_Z k <= q <= inject_Z k ->
  (- k <= truncate q <= k)%Z.
Proof.
  intros Hk [Hlo Hhi].
  destruct (truncate_spec q) as [Hpos Hneg].
  destruct (Qlt_le_dec q 0) as [Hq|Hq].
  - destruct (Hneg (Qlt_le_weak _ _ Hq)) as [H1 H2].
    assert (H3 : - inject_Z k - 1 < inject_Z (truncate q)) by lra.
    assert (H4 : inject_Z (truncate q) < 1) by lra.
    change (- inject_Z k - 1) with (inject_Z (- k) + inject_Z (-1)) in H3.
    rewrite <- inject_Z_plus in H3. rewrite <- Zlt_Qlt in H3.
    change 1 with (inject_Z 1) in H4. rewrite <- Zlt_Qlt in H4. lia.
  - destruct (Hpos Hq) as [H1 H2].
    assert (H3 : inject_Z (truncate q) <= inject_Z k) by lra.
    assert (H4 : inject_Z (-1) < inject_Z (truncate q)) by (change (inject_Z (-1)) with (-1); lra).
    rewrite <- Zle_Qle in H3. rewrite <- Zlt_Qlt in H4. lia.
Qed.

Lemma pcm16_spec (x : Q) :
  pcm16 x = truncate (clamp x * 32767) /\ (-32767 <= pcm16 x <= 32767)%Z.
Proof.
  pose proof (clamp_range x) as Hc.
  assert (Ht : (- 32767 <= truncate (clamp x * 32767) <= 32767)%Z).
  { apply (truncate_bounds (clamp x * 32767) 32767); [lia|].
    change (inject_Z 32767) with 32767. lra. }
  assert (E : pcm16 x = truncate (clamp x * 32767)).
  { unfold pcm16, ToInt16. revert Ht. generalize (truncate (clamp x * 32767)).
    intros t Ht. destruct (Z.ltb_spec (t mod 65536) 32768);
      Z.div_mod_to_equations; lia. }
  split; [exact E | rewrite E; exact Ht].
Qed.

Lemma nth_sampleBytes (l : list Q) (i : nat) (x : Q) :
  nth_error l i = Some x ->
  nth (2 * i) (flat_map sampleBytes l) 0%Z = ((pcm16 x mod 65536) mod 256)%Z /\
  nth (2 * i + 1) (flat_map sampleBytes l) 0%Z
  = ((pcm16 x mod 65536) / 256 mod 256)%Z.
Proof.
  revert i. induction l as [|y l IH]; intros i Hi.
  - destruct i; discriminate Hi.
  - destruct i as [|i].
    + injection Hi as ->. split; reflexivity.
    + cbn [nth_error] in Hi. destruct (IH i Hi) as [E0 E1].
      replace (2 * S i)%nat with (S (S (2 * i))) by lia.
      replace (S (S (2 * i)) + 1)%nat with (S (S (2 * i + 1))) by lia.
      cbn [flat_map sampleBytes bytesLE app nth]. split; assumption.
Qed.

(** X20.  The samples a reader finds.  The 16-bit little-endian value
    at byte [44 + 2 i] is the [i]-th sample, limited to [-1, 1], scaled
    by 32767 and cut to an integer toward zero: it lies between -32767
    and 32767 and is less than 1 away from the scaled sample, and a
    sample within [-1, 1] is not changed by the limiting. *)
Theorem encodeWAV_samples (audioBuffer : AudioBuffer) (bytes : list Z)
        (i : nat) (x : Q) :
  encodeWAV audioBuffer = Some bytes ->
  nth_error (channelData audioBuffer) i = Some x ->
  getInt16 bytes (44 + 2 * i) = pcm16 x /\
  (-32767 <= pcm16 x <= 32767)%Z /\
  inject_Z (pcm16 x) - 1 < clamp x * 32767 < inject_Z (pcm16 x) + 1 /\
  -1 <= clamp x <= 1 /\
  (-1 <= x <= 1 -> clamp x == x).
Proof.
  intros Henc Hx.
  assert (Hb : bytes = (headerBytes (List.length (channelData audioBuffer))
                                   (sampleRate audioBuffer)
                       ++ flat_map sampleBytes (channelData audioBuffer))%list)
    by (pose proof (encodeWAV_layout audioBuffer); congruence).
  destruct (pcm16_spec x) as [Et Hr].
  split; [|split; [exact Hr|split; [|split; [apply clamp_range|apply clamp_inside]]]].
  - subst bytes. unfold getInt16, getUint16, getUint8.
    replace (44 + 2 * i + 1)%nat with (44 + (2 * i + 1))%nat by lia.
    rewrite <- (length_headerBytes (List.length (channelData audioBuffer))
                                   (sampleRate audioBuffer)).
    rewrite !app_nth2_plus.
    destruct (nth_sampleBytes _ _ _ Hx) as [-> ->].
    revert Hr. generalize (pcm16 x). intros v Hr.
    destruct (Z.ltb_spec ((v mod 65536) mod 256
                          + 256 * ((v mod 65536) / 256 mod 256)) 32768);
      Z.div_mod_to_equations; lia.
  - rewrite Et. destruct (truncate_spec (clamp x * 32767)) as [Hpos Hneg].
    destruct (Qlt_le_dec (clamp x * 32767) 0) as [Hq|Hq].
    + destruct (Hneg (Qlt_le_weak _ _ Hq)). split; lra.
    + destruct (Hpos Hq). split; lra.
Qed.
End WavSamples.

Lemma encodeWAV_samples_witness :
  let ab := {| Wav.sampleRate := 44100;
               Wav.channelData := [0; 1 # 2; - (3 # 2)]%Q |} in
  exists bytes,
    Wav.encodeWAV ab = Some bytes /\
    Wav.getInt16 bytes 46 = 16383 /\ Wav.getInt16 bytes 48 = -32767.
Proof.
  intros ab. eexists. split; [apply encodeWAV_layout|]. split.
  - destruct (encodeWAV_samples ab _ 1 (1 # 2) (encodeWAV_layout ab) eq_refl)
      as (H & _).
    exact H.
  - destruct (encodeWAV_samples ab _ 2 (- (3 # 2)) (encodeWAV_layout ab) eq_refl)
      as (H & _).
    exact H.
Defined.
